(** * ExDB: a key-value store with a table file and a write-ahead log

    Shallow embedding of [src/exDB.cpp] (classes [Storage], [WAL],
    [KeyValueDB]) and of its sibling [src/unnamed/part_000] (classes
    [Storage], [WAL], [ExDB]), followed by the properties of the store:
    recovery, merge, round trip of the table file, replay of the log.

    - A file is the string of its bytes.  The file system is a finite map
      from files to contents, together with the way the system resolves a
      path: two paths may name one file, a path may name no place where a
      file can be (empty path, missing directory), and a file may refuse
      to be opened for reading or for writing.  An open that fails leaves a stream in the
      fail state: reads find nothing, writes are lost.
    - [std::unordered_map<std::string, std::string>] is [gmap string string];
      its iteration order, which the C++ standard leaves unspecified, is a
      parameter of the code that iterates ([Storage::save]).
    - [std::ifstream] is the unread rest of the file and the fail bit;
      [operator>>] on a [std::string] skips white space and takes the
      longest run of other characters, and leaves the variable as it was
      when there is nothing to take.
    - The [std::shared_mutex] serialises callers; the model is the
      sequential behaviour of one caller at a time. *)

From Stdlib Require Import String Ascii List Lia.
From stdpp Require Import base gmap strings list.
From Equations Require Import Equations.

Local Open Scope string_scope.

(** ** Text streams *)

(** [std::isspace] in the classic locale: space, \t, \n, \v, \f, \r. *)
Definition isspace (c : ascii) : bool :=
  match c with
  | " "%char | "009"%char | "010"%char
  | "011"%char | "012"%char | "013"%char => true
  | _ => false
  end.

(** The one-character string written by [<< "\n"]. *)
Definition newline : string := String "010"%char EmptyString.

(** The sentry of a formatted input: drop leading white space. *)
Fixpoint skipws (s : string) : string :=
  match s with
  | String c s' => if isspace c then skipws s' else s
  | EmptyString => EmptyString
  end.

(** The characters up to the next white space or the end, and the rest. *)
Fixpoint getword (s : string) : string * string :=
  match s with
  | String c s' =>
      if isspace c then (EmptyString, s)
      else let '(w, r) := getword s' in (String c w, r)
  | EmptyString => (EmptyString, EmptyString)
  end.

Record ifstream := { buf : string; failbit : bool }.

(** The files, each under its identity, with their contents; a file
    that does not exist has no entry. *)
Abbreviation FS := (gmap string string).

(** What the operating system does with a path: the file it names, if
    it names a place where a file can be, and whether that file may be
    opened for reading and for writing. *)
Record system := {
  locate : string -> option string;
  readable : string -> bool;
  writable : string -> bool
}.

(** What a reader finds under a path. *)
Definition file_text (os : system) (fs : FS) (name : string) : option string :=
  match locate os name with
  | Some file => if readable os file then fs !! file else None
  | None => None
  end.

(** The file a writer gets under a path. *)
Definition open_for_writing (os : system) (name : string) : option string :=
  match locate os name with
  | Some file => if writable os file then Some file else None
  | None => None
  end.

(** [std::ifstream f(name)]: when the file cannot be opened the stream is
    in the fail state. *)
Definition ifstream_open (os : system) (fs : FS) (name : string) : ifstream :=
  match file_text os fs name with
  | Some content => {| buf := content; failbit := false |}
  | None => {| buf := EmptyString; failbit := true |}
  end.

(** [f >> var]: the stream after the extraction and the new content of
    [var].  A stream in the fail state is left alone, and so is [var];
    when only white space is left the fail bit is set and [var] keeps its
    content. *)
Definition extract (f : ifstream) (var : string) : ifstream * string :=
  if failbit f then (f, var)
  else match skipws (buf f) with
       | EmptyString => ({| buf := EmptyString; failbit := true |}, var)
       | b => let '(w, r) := getword b in ({| buf := r; failbit := false |}, w)
       end.

(** [std::ofstream]: the file it was opened on, none when the open
    failed, and the content that file will have. *)
Record ofstream := { target : option string; out : string }.

(** [std::ofstream f(name, trunc)] starts from the empty content. *)
Definition ofstream_trunc (os : system) (fs : FS) (name : string) : ofstream :=
  {| target := open_for_writing os name; out := EmptyString |}.

(** [std::ofstream f(name, app)] starts from the content the file has,
    empty when the open creates it. *)
Definition ofstream_app (os : system) (fs : FS) (name : string) : ofstream :=
  match open_for_writing os name with
  | Some file => {| target := Some file;
                    out := default EmptyString (fs !! file) |}
  | None => {| target := None; out := EmptyString |}
  end.

(** [f << s] *)
Definition write (f : ofstream) (s : string) : ofstream :=
  {| target := target f; out := out f ++ s |}.

(** [f.close()]: the content is in the file; nothing happens when the
    open had failed. *)
Definition ofstream_close (fs : FS) (f : ofstream) : FS :=
  match target f with
  | Some file => <[file := out f]> fs
  | None => fs
  end.

(** ** The in-memory table *)

Abbreviation Mapping := (gmap string string).

(** The order in which a range-for visits a [std::unordered_map]:
    some enumeration of its entries, each exactly once. *)
Record iteration := {
  elements :> Mapping -> list (string * string);
  elements_perm : forall m, elements m ≡ₚ map_to_list m
}.

(** ** Extraction consumes input *)

Lemma skipws_length s : String.length (skipws s) <= String.length s.
Proof.
  induction s as [|c s IH]; simpl; [lia|].
  destruct (isspace c); simpl; lia.
Qed.

Lemma getword_length s : String.length (snd (getword s)) <= String.length s.
Proof.
  induction s as [|c s IH]; simpl; [lia|].
  destruct (isspace c); simpl; [lia|].
  destruct (getword s); simpl in *; lia.
Qed.

Lemma skipws_head s c b : skipws s = String c b -> isspace c = false.
Proof.
  induction s as [|d s IH]; simpl; [congruence|].
  destruct (isspace d) eqn:Ed; [auto|].
  intros [= -> ->]. exact Ed.
Qed.

Lemma extract_shorter f var f' w :
  extract f var = (f', w) -> failbit f' = false ->
  String.length (buf f') < String.length (buf f).
Proof.
  unfold extract. destruct (failbit f) eqn:E.
  - intros [= <- <-]. congruence.
  - pose proof (skipws_length (buf f)) as Hs.
    destruct (skipws (buf f)) as [|c b] eqn:Eb.
    + intros [= <- <-]. simpl. congruence.
    + apply skipws_head in Eb. simpl. rewrite Eb.
      pose proof (getword_length b) as Hg.
      destruct (getword b) as [w1 r]. intros [= <- <-] _. simpl in *. lia.
Qed.

Lemma extract_le f var f' w :
  extract f var = (f', w) -> String.length (buf f') <= String.length (buf f).
Proof.
  unfold extract. destruct (failbit f).
  - intros [= <- <-]. lia.
  - pose proof (skipws_length (buf f)) as Hs.
    destruct (skipws (buf f)) as [|c b] eqn:Eb.
    + intros [= <- <-]. simpl. lia.
    + apply skipws_head in Eb. simpl. rewrite Eb.
      pose proof (getword_length b) as Hg.
      destruct (getword b) as [w1 r]. intros [= <- <-]. simpl in *. lia.
Qed.

Definition inspect {A} (a : A) : {b | a = b} := exist _ a eq_refl.

Notation "x 'eqn:' p" := (exist _ x p) (only parsing, at level 20).

(** ** src/exDB.cpp *)

Module ExDBCpp.

Module Storage.

Record t := { dbFileName_ : string }.

(** [while (dbFile >> key >> value) { db[key] = value; }] *)
Equations? load_loop (dbFile : ifstream) (key value : string) (db : Mapping)
  : Mapping by wf (String.length (buf dbFile)) lt :=
  load_loop dbFile key value db with inspect (extract dbFile key) := {
    | pair dbFile1 key1 eqn: E1 with inspect (extract dbFile1 value) := {
      | pair dbFile2 value1 eqn: E2 with inspect (failbit dbFile2) := {
        | true eqn: _ := db
        | false eqn: E3 :=
            load_loop dbFile2 key1 value1 (<[key1 := value1]> db) } } }.
Proof.
  pose proof (extract_shorter _ _ _ _ E2 E3).
  pose proof (extract_le _ _ _ _ E1). lia.
Qed.

Definition load (os : system) (this : t) (fs : FS) : Mapping :=
  let db : Mapping := ∅ in
  let dbFile := ifstream_open os fs (dbFileName_ this) in
  load_loop dbFile EmptyString EmptyString db.

(** [for (const auto& pair : db) dbFile << pair.first << " " << pair.second << "\n";] *)
Definition save (os : system) (order : iteration) (this : t) (db : Mapping)
  (fs : FS) : FS :=
  let dbFile := ofstream_trunc os fs (dbFileName_ this) in
  let dbFile :=
    foldl (fun dbFile pair =>
             write (write (write (write dbFile pair.1) " ") pair.2) newline)
          dbFile (order db) in
  ofstream_close fs dbFile.

End Storage.

Module WAL.

Record t := { walFileName_ : string }.

Definition logWriteOperation (os : system) (this : t) (key value : string)
  (fs : FS) : FS :=
  let walFile := ofstream_app os fs (walFileName_ this) in
  let walFile :=
    write (write (write (write (write walFile "PUT ") key) " ") value)
          newline in
  ofstream_close fs walFile.

Definition logDeleteOperation (os : system) (this : t) (key : string)
  (fs : FS) : FS :=
  let walFile := ofstream_app os fs (walFileName_ this) in
  let walFile := write (write (write walFile "DEL ") key) newline in
  ofstream_close fs walFile.

(** [while (walFile >> operation >> key) { if (operation == "PUT") {
    walFile >> value; db[key] = value; } else if (operation == "DEL") {
    db.erase(key); } }]: the extraction of [value] is not tested. *)
Equations? applyLog_loop (walFile : ifstream) (operation key value : string)
  (db : Mapping) : Mapping by wf (String.length (buf walFile)) lt :=
  applyLog_loop walFile operation key value db
    with inspect (extract walFile operation) := {
    | pair walFile1 operation1 eqn: E1 with inspect (extract walFile1 key) := {
      | pair walFile2 key1 eqn: E2 with inspect (failbit walFile2) := {
        | true eqn: _ := db
        | false eqn: E3 with String.eqb operation1 "PUT" := {
          | true with inspect (extract walFile2 value) := {
            | pair walFile3 value1 eqn: E4 :=
                applyLog_loop walFile3 operation1 key1 value1
                              (<[key1 := value1]> db) }
          | false with String.eqb operation1 "DEL" := {
            | true :=
                applyLog_loop walFile2 operation1 key1 value (delete key1 db)
            | false :=
                applyLog_loop walFile2 operation1 key1 value db } } } } }.
Proof.
  all: pose proof (extract_shorter _ _ _ _ E2 E3);
    pose proof (extract_le _ _ _ _ E1);
    try pose proof (extract_le _ _ _ _ E4); lia.
Qed.

Definition applyLog (os : system) (this : t) (db : Mapping) (fs : FS)
  : Mapping :=
  let walFile := ifstream_open os fs (walFileName_ this) in
  applyLog_loop walFile EmptyString EmptyString EmptyString db.

Definition clearLog (os : system) (this : t) (fs : FS) : FS :=
  let walFile := ofstream_trunc os fs (walFileName_ this) in
  ofstream_close fs walFile.

End WAL.

Module KeyValueDB.

Record t := { db_ : Mapping; storage_ : Storage.t; wal_ : WAL.t }.

(** A method runs on the object and the files. *)
Definition state : Type := t * FS.

Definition new (os : system) (dbFileName walFileName : string) (fs : FS) : t :=
  let storage_ := {| Storage.dbFileName_ := dbFileName |} in
  let wal_ := {| WAL.walFileName_ := walFileName |} in
  let db_ := Storage.load os storage_ fs in
  let db_ := WAL.applyLog os wal_ db_ fs in
  {| db_ := db_; storage_ := storage_; wal_ := wal_ |}.

Definition put (os : system) (key value : string) (st : state) : state :=
  let '(this, fs) := st in
  let db_ := <[key := value]> (db_ this) in
  let fs := WAL.logWriteOperation os (wal_ this) key value fs in
  ({| db_ := db_; storage_ := storage_ this; wal_ := wal_ this |}, fs).

Definition get (key : string) (st : state) : string * state :=
  let '(this, fs) := st in
  match db_ this !! key with
  | Some second => (second, st)
  | None => ("Key not found", st)
  end.

Definition remove (os : system) (key : string) (st : state) : state :=
  let '(this, fs) := st in
  let db_ := delete key (db_ this) in
  let fs := WAL.logDeleteOperation os (wal_ this) key fs in
  ({| db_ := db_; storage_ := storage_ this; wal_ := wal_ this |}, fs).

Definition mergeLogs (os : system) (order : iteration) (st : state) : state :=
  let '(this, fs) := st in
  let fs := Storage.save os order (storage_ this) (db_ this) fs in
  let fs := WAL.clearLog os (wal_ this) fs in
  (this, fs).

End KeyValueDB.

(** [main]: what it writes to [std::cout] and the files it leaves. *)
Definition main (os : system) (order : iteration) (fs : FS) : string * FS :=
  let kvdb := (KeyValueDB.new os "db.txt" "wal.txt" fs, fs) in
  let kvdb := KeyValueDB.put os "name" "Alice" kvdb in
  let kvdb := KeyValueDB.put os "age" "30" kvdb in
  let cout := EmptyString in
  let '(name, kvdb) := KeyValueDB.get "name" kvdb in
  let cout := ((cout ++ "name: ") ++ name) ++ newline in
  let '(age, kvdb) := KeyValueDB.get "age" kvdb in
  let cout := ((cout ++ "age: ") ++ age) ++ newline in
  let kvdb := KeyValueDB.remove os "name" kvdb in
  let '(name, kvdb) := KeyValueDB.get "name" kvdb in
  let cout := ((cout ++ "name after deletion: ") ++ name) ++ newline in
  let kvdb := KeyValueDB.mergeLogs os order kvdb in
  (cout, kvdb.2).

End ExDBCpp.

(** ** src/unnamed/part_000 *)

Module Part000.

Module Storage.

Record t := { dbFileName_ : string }.

(** [while (dbFile >> key >> value) { db[key] = value; }] *)
Equations? load_loop (dbFile : ifstream) (key value : string) (db : Mapping)
  : Mapping by wf (String.length (buf dbFile)) lt :=
  load_loop dbFile key value db with inspect (extract dbFile key) := {
    | pair dbFile1 key1 eqn: E1 with inspect (extract dbFile1 value) := {
      | pair dbFile2 value1 eqn: E2 with inspect (failbit dbFile2) := {
        | true eqn: _ := db
        | false eqn: E3 :=
            load_loop dbFile2 key1 value1 (<[key1 := value1]> db) } } }.
Proof.
  pose proof (extract_shorter _ _ _ _ E2 E3).
  pose proof (extract_le _ _ _ _ E1). lia.
Qed.

Definition load (os : system) (this : t) (fs : FS) : Mapping :=
  let db : Mapping := ∅ in
  let dbFile := ifstream_open os fs (dbFileName_ this) in
  load_loop dbFile EmptyString EmptyString db.

(** [for (const auto& pair : db) dbFile << pair.first << " " << pair.second << "\n";] *)
Definition save (os : system) (order : iteration) (this : t) (db : Mapping)
  (fs : FS) : FS :=
  let dbFile := ofstream_trunc os fs (dbFileName_ this) in
  let dbFile :=
    foldl (fun dbFile pair =>
             write (write (write (write dbFile pair.1) " ") pair.2) newline)
          dbFile (order db) in
  ofstream_close fs dbFile.

End Storage.

Module WAL.

Record t := { walFileName_ : string }.

Definition logWriteOperation (os : system) (this : t) (key value : string)
  (fs : FS) : FS :=
  let walFile := ofstream_app os fs (walFileName_ this) in
  let walFile :=
    write (write (write (write (write walFile "PUT ") key) " ") value)
          newline in
  ofstream_close fs walFile.

Definition logDeleteOperation (os : system) (this : t) (key : string)
  (fs : FS) : FS :=
  let walFile := ofstream_app os fs (walFileName_ this) in
  let walFile := write (write (write walFile "DEL ") key) newline in
  ofstream_close fs walFile.

(** [while (walFile >> operation >> key) { if (operation == "PUT") {
    walFile >> value; db[key] = value; } else if (operation == "DEL") {
    db.erase(key); } }]: the extraction of [value] is not tested. *)
Equations? applyLog_loop (walFile : ifstream) (operation key value : string)
  (db : Mapping) : Mapping by wf (String.length (buf walFile)) lt :=
  applyLog_loop walFile operation key value db
    with inspect (extract walFile operation) := {
    | pair walFile1 operation1 eqn: E1 with inspect (extract walFile1 key) := {
      | pair walFile2 key1 eqn: E2 with inspect (failbit walFile2) := {
        | true eqn: _ := db
        | false eqn: E3 with String.eqb operation1 "PUT" := {
          | true with inspect (extract walFile2 value) := {
            | pair walFile3 value1 eqn: E4 :=
                applyLog_loop walFile3 operation1 key1 value1
                              (<[key1 := value1]> db) }
          | false with String.eqb operation1 "DEL" := {
            | true :=
                applyLog_loop walFile2 operation1 key1 value (delete key1 db)
            | false :=
                applyLog_loop walFile2 operation1 key1 value db } } } } }.
Proof.
  all: pose proof (extract_shorter _ _ _ _ E2 E3);
    pose proof (extract_le _ _ _ _ E1);
    try pose proof (extract_le _ _ _ _ E4); lia.
Qed.

Definition applyLog (os : system) (this : t) (db : Mapping) (fs : FS)
  : Mapping :=
  let walFile := ifstream_open os fs (walFileName_ this) in
  applyLog_loop walFile EmptyString EmptyString EmptyString db.

Definition clearLog (os : system) (this : t) (fs : FS) : FS :=
  let walFile := ofstream_trunc os fs (walFileName_ this) in
  ofstream_close fs walFile.

End WAL.

Module ExDB.

Record t := { db_ : Mapping; storage_ : Storage.t; wal_ : WAL.t }.

(** A method runs on the object and the files. *)
Definition state : Type := t * FS.

Definition new (os : system) (dbFileName walFileName : string) (fs : FS) : t :=
  let storage_ := {| Storage.dbFileName_ := dbFileName |} in
  let wal_ := {| WAL.walFileName_ := walFileName |} in
  let db_ := Storage.load os storage_ fs in
  let db_ := WAL.applyLog os wal_ db_ fs in
  {| db_ := db_; storage_ := storage_; wal_ := wal_ |}.

Definition put (os : system) (key value : string) (st : state) : state :=
  let '(this, fs) := st in
  let db_ := <[key := value]> (db_ this) in
  let fs := WAL.logWriteOperation os (wal_ this) key value fs in
  ({| db_ := db_; storage_ := storage_ this; wal_ := wal_ this |}, fs).

Definition get (key : string) (st : state) : string * state :=
  let '(this, fs) := st in
  match db_ this !! key with
  | Some second => (second, st)
  | None => ("Key not found", st)
  end.

Definition remove (os : system) (key : string) (st : state) : state :=
  let '(this, fs) := st in
  let db_ := delete key (db_ this) in
  let fs := WAL.logDeleteOperation os (wal_ this) key fs in
  ({| db_ := db_; storage_ := storage_ this; wal_ := wal_ this |}, fs).

Definition mergeLogs (os : system) (order : iteration) (st : state) : state :=
  let '(this, fs) := st in
  let fs := Storage.save os order (storage_ this) (db_ this) fs in
  let fs := WAL.clearLog os (wal_ this) fs in
  (this, fs).

End ExDB.

(** [main]: what it writes to [std::cout] and the files it leaves. *)
Definition main (os : system) (order : iteration) (fs : FS) : string * FS :=
  let exdb := (ExDB.new os "db.txt" "wal.txt" fs, fs) in
  let exdb := ExDB.put os "name" "Alice" exdb in
  let exdb := ExDB.put os "age" "30" exdb in
  let cout := EmptyString in
  let '(name, exdb) := ExDB.get "name" exdb in
  let cout := ((cout ++ "name: ") ++ name) ++ newline in
  let '(age, exdb) := ExDB.get "age" exdb in
  let cout := ((cout ++ "age: ") ++ age) ++ newline in
  let exdb := ExDB.remove os "name" exdb in
  let '(name, exdb) := ExDB.get "name" exdb in
  let cout := ((cout ++ "name after deletion: ") ++ name) ++ newline in
  let exdb := ExDB.mergeLogs os order exdb in
  (cout, exdb.2).

End Part000.

(** * Vocabulary of the properties *)

(** White space only. *)
Fixpoint allws (s : string) : bool :=
  match s with
  | String c s' => isspace c && allws s'
  | EmptyString => true
  end.

(** No white space. *)
Fixpoint nows (s : string) : bool :=
  match s with
  | String c s' => negb (isspace c) && nows s'
  | EmptyString => true
  end.

(** A token of the data model: non-empty text without white space. *)
Definition token (s : string) : bool :=
  match s with
  | EmptyString => false
  | _ => nows s
  end.

(** What may follow a token in a file: the end, or white space. *)
Definition delimited (r : string) : bool :=
  match r with
  | String c _ => isspace c
  | EmptyString => true
  end.

Definition entry_ok (e : string * string) : Prop :=
  token e.1 = true /\ token e.2 = true.

(** A Mapping of the data model: every key and value is a token. *)
Definition tokens_only (m : Mapping) : Prop :=
  map_Forall (fun k v => token k = true /\ token v = true) m.

(** [db[key] = value] for each pair of a list, first to last. *)
Definition assign_all (db : Mapping) (l : list (string * string)) : Mapping :=
  foldl (fun m e => <[e.1 := e.2]> m) db l.

(** The table file format: one line [<key> <value>] per entry. *)
Definition entry_line (e : string * string) : string :=
  e.1 ++ " " ++ e.2 ++ newline.

Definition table_text (l : list (string * string)) : string :=
  foldr (fun e text => entry_line e ++ text) EmptyString l.

(** The record of the log of the data model. *)
Inductive record :=
| Put (key value : string)
| Delete (key : string).

Definition record_ok (r : record) : Prop :=
  match r with
  | Put key value => token key = true /\ token value = true
  | Delete key => token key = true
  end.

Definition apply_record (db : Mapping) (r : record) : Mapping :=
  match r with
  | Put key value => <[key := value]> db
  | Delete key => delete key db
  end.

Definition replay (db : Mapping) (R : list record) : Mapping :=
  foldl apply_record db R.

(** The log file format: [PUT <key> <value>] or [DEL <key>], one per line. *)
Definition record_line (r : record) : string :=
  match r with
  | Put key value => "PUT " ++ key ++ " " ++ value ++ newline
  | Delete key => "DEL " ++ key ++ newline
  end.

Definition log_text (R : list record) : string :=
  foldr (fun r text => record_line r ++ text) EmptyString R.

(** The value of the last [Put] of a sequence, [value] when it has none. *)
Definition last_put_value (value : string) (R : list record) : string :=
  foldl (fun v r => match r with Put _ v' => v' | Delete _ => v end) value R.

(** A file holds a text: a reader finds that content under the path, or
    finds no file there and the text is empty. *)
Definition file_holds (os : system) (fs : FS) (name text : string) : Prop :=
  file_text os fs name = Some text
  \/ (file_text os fs name = None /\ text = EmptyString).

(** The path names [file], and [file] may be opened for writing. *)
Definition can_write (os : system) (name file : string) : Prop :=
  locate os name = Some file /\ writable os file = true.

(** The path names [file], and [file] may be opened for reading. *)
Definition can_read (os : system) (name file : string) : Prop :=
  locate os name = Some file /\ readable os file = true.

(** The two paths name two different files, both of which may be opened
    for reading and for writing. *)
Definition two_files (os : system) (dbFileName walFileName : string) : Prop :=
  exists dbFile walFile,
    (can_write os dbFileName dbFile /\ can_read os dbFileName dbFile)
    /\ (can_write os walFileName walFile /\ can_read os walFileName walFile)
    /\ dbFile <> walFile.

(** A system for the examples: the empty path names nothing, a leading
    [./] changes nothing, every other path is a file of its own; every
    file may be written but [frozen.txt] and read but [sealed.txt]. *)
Definition sample_system : system :=
  {| locate := fun name =>
       match name with
       | EmptyString => None
       | String "."%char (String "/"%char rest) => Some rest
       | _ => Some name
       end;
     readable := fun file => negb (String.eqb file "sealed.txt");
     writable := fun file => negb (String.eqb file "frozen.txt") |}.

(** The two sources. *)
Inductive source := exDB_cpp | part_000.

Definition Storage_load (src : source) (os : system) (dbFileName : string)
  (fs : FS) : Mapping :=
  match src with
  | exDB_cpp =>
      ExDBCpp.Storage.load os {| ExDBCpp.Storage.dbFileName_ := dbFileName |} fs
  | part_000 =>
      Part000.Storage.load os {| Part000.Storage.dbFileName_ := dbFileName |} fs
  end.

Definition WAL_applyLog (src : source) (os : system) (walFileName : string)
  (db : Mapping) (fs : FS) : Mapping :=
  match src with
  | exDB_cpp =>
      ExDBCpp.WAL.applyLog os {| ExDBCpp.WAL.walFileName_ := walFileName |} db fs
  | part_000 =>
      Part000.WAL.applyLog os {| Part000.WAL.walFileName_ := walFileName |} db fs
  end.

Definition WAL_applyLog_loop (src : source) (walFile : ifstream)
  (operation key value : string) (db : Mapping) : Mapping :=
  match src with
  | exDB_cpp => ExDBCpp.WAL.applyLog_loop walFile operation key value db
  | part_000 => Part000.WAL.applyLog_loop walFile operation key value db
  end.

(** The Mapping of the facade the constructor builds. *)
Definition constructed (src : source) (os : system)
  (dbFileName walFileName : string) (fs : FS) : Mapping :=
  match src with
  | exDB_cpp =>
      ExDBCpp.KeyValueDB.db_
        (ExDBCpp.KeyValueDB.new os dbFileName walFileName fs)
  | part_000 =>
      Part000.ExDB.db_ (Part000.ExDB.new os dbFileName walFileName fs)
  end.

(** The calls of the public interface. *)
Inductive call :=
| CallPut (key value : string)
| CallGet (key : string)
| CallRemove (key : string)
| CallMergeLogs.

(** One call on the facade of src/exDB.cpp: what it returns ([get] only)
    and the state after it. *)
Definition KeyValueDB_call (os : system) (order : iteration) (c : call)
  (st : ExDBCpp.KeyValueDB.state) : option string * ExDBCpp.KeyValueDB.state :=
  match c with
  | CallPut key value => (None, ExDBCpp.KeyValueDB.put os key value st)
  | CallGet key =>
      let '(r, st') := ExDBCpp.KeyValueDB.get key st in (Some r, st')
  | CallRemove key => (None, ExDBCpp.KeyValueDB.remove os key st)
  | CallMergeLogs => (None, ExDBCpp.KeyValueDB.mergeLogs os order st)
  end.

Fixpoint KeyValueDB_run (os : system) (order : iteration) (cs : list call)
  (st : ExDBCpp.KeyValueDB.state)
  : list (option string) * ExDBCpp.KeyValueDB.state :=
  match cs with
  | [] => ([], st)
  | c :: cs' =>
      let '(r, st1) := KeyValueDB_call os order c st in
      let '(rs, st2) := KeyValueDB_run os order cs' st1 in
      (r :: rs, st2)
  end.

(** The same on the facade of src/unnamed/part_000. *)
Definition ExDB_call (os : system) (order : iteration) (c : call)
  (st : Part000.ExDB.state) : option string * Part000.ExDB.state :=
  match c with
  | CallPut key value => (None, Part000.ExDB.put os key value st)
  | CallGet key =>
      let '(r, st') := Part000.ExDB.get key st in (Some r, st')
  | CallRemove key => (None, Part000.ExDB.remove os key st)
  | CallMergeLogs => (None, Part000.ExDB.mergeLogs os order st)
  end.

Fixpoint ExDB_run (os : system) (order : iteration) (cs : list call)
  (st : Part000.ExDB.state) : list (option string) * Part000.ExDB.state :=
  match cs with
  | [] => ([], st)
  | c :: cs' =>
      let '(r, st1) := ExDB_call os order c st in
      let '(rs, st2) := ExDB_run os order cs' st1 in
      (r :: rs, st2)
  end.


Global Instance entry_ok_dec e : Decision (entry_ok e).
Proof. unfold entry_ok. apply _. Defined.

Global Instance record_ok_dec r : Decision (record_ok r).
Proof. destruct r; simpl; apply _. Defined.

Global Instance tokens_only_dec m : Decision (tokens_only m).
Proof. unfold tokens_only. apply _. Defined.

(** Merge convergence at a state: after [mergeLogs], the table file loads
    to the Mapping the facade had, the log file is empty or missing, and
    a facade built anew on the same two files has that Mapping. *)
Definition merge_converges (os : system) (order : iteration)
  (st : ExDBCpp.KeyValueDB.state) : Prop :=
  let this := st.1 in
  let dbFileName := ExDBCpp.Storage.dbFileName_ (ExDBCpp.KeyValueDB.storage_ this) in
  let walFileName := ExDBCpp.WAL.walFileName_ (ExDBCpp.KeyValueDB.wal_ this) in
  let st' := ExDBCpp.KeyValueDB.mergeLogs os order st in
  ExDBCpp.KeyValueDB.db_ st'.1 = ExDBCpp.KeyValueDB.db_ this
  /\ ExDBCpp.Storage.load os (ExDBCpp.KeyValueDB.storage_ this) st'.2
     = ExDBCpp.KeyValueDB.db_ this
  /\ file_holds os st'.2 walFileName EmptyString
  /\ ExDBCpp.KeyValueDB.db_
       (ExDBCpp.KeyValueDB.new os dbFileName walFileName st'.2)
     = ExDBCpp.KeyValueDB.db_ this.

(** The two facades are in the same state: same Mapping, same file names,
    same files. *)
Definition same_state (s1 : ExDBCpp.KeyValueDB.state)
  (s2 : Part000.ExDB.state) : Prop :=
  ExDBCpp.KeyValueDB.db_ s1.1 = Part000.ExDB.db_ s2.1
  /\ ExDBCpp.Storage.dbFileName_ (ExDBCpp.KeyValueDB.storage_ s1.1)
     = Part000.Storage.dbFileName_ (Part000.ExDB.storage_ s2.1)
  /\ ExDBCpp.WAL.walFileName_ (ExDBCpp.KeyValueDB.wal_ s1.1)
     = Part000.WAL.walFileName_ (Part000.ExDB.wal_ s2.1)
  /\ s1.2 = s2.2.

(** One iteration order: the enumeration [map_to_list] of the map. *)
Definition listed_iteration : iteration :=
  {| elements := fun m => map_to_list m;
     elements_perm := fun m => Permutation_refl (map_to_list m) |}.

(** ** Vocabulary of the further properties *)

(** Does the text start with a character that is not white space? *)
Definition starts_word (s : string) : bool :=
  match s with
  | String c _ => negb (isspace c)
  | EmptyString => false
  end.

(** The words of a text: its maximal runs of characters that are not
    white space, first to last. *)
Fixpoint words (s : string) : list string :=
  match s with
  | EmptyString => []
  | String c s' =>
      if isspace c then words s'
      else if starts_word s' then
        match words s' with
        | w :: ws => String c w :: ws
        | [] => [String c EmptyString]
        end
      else String c EmptyString :: words s'
  end.

(** Words taken two by two; a last word alone is left out. *)
Fixpoint pairs_of (ws : list string) : list (string * string) :=
  match ws with
  | key :: value :: rest => (key, value) :: pairs_of rest
  | _ => []
  end.

(** The log read as a sequence of words: an operation and a key, and a
    value after [PUT]; [value] is what the last [PUT] left. *)
Fixpoint replay_words (ws : list string) (value : string) (db : Mapping)
  : Mapping :=
  match ws with
  | operation :: key :: rest =>
      if String.eqb operation "PUT" then
        match rest with
        | value' :: rest' => replay_words rest' value' (<[key := value']> db)
        | [] => <[key := value]> db
        end
      else if String.eqb operation "DEL" then
        replay_words rest value (delete key db)
      else replay_words rest value db
  | _ => db
  end.

(** A call whose arguments are tokens. *)
Definition call_ok (c : call) : Prop :=
  match c with
  | CallPut key value => token key = true /\ token value = true
  | CallGet key => True
  | CallRemove key => token key = true
  | CallMergeLogs => True
  end.

Global Instance call_ok_dec c : Decision (call_ok c).
Proof. destruct c; simpl; apply _. Defined.

(** The facade of src/exDB.cpp stands on two different files that may be
    read and written, a table of tokens and a log of complete records, and its
    Mapping is the table with the records applied. *)
Definition well_formed (os : system) (st : ExDBCpp.KeyValueDB.state) : Prop :=
  let this := st.1 in
  let dbFileName := ExDBCpp.Storage.dbFileName_ (ExDBCpp.KeyValueDB.storage_ this) in
  let walFileName := ExDBCpp.WAL.walFileName_ (ExDBCpp.KeyValueDB.wal_ this) in
  two_files os dbFileName walFileName
  /\ exists (S : Mapping) l R,
       tokens_only S /\ l ≡ₚ map_to_list S /\ Forall record_ok R
       /\ file_holds os st.2 dbFileName (table_text l)
       /\ file_holds os st.2 walFileName (log_text R)
       /\ ExDBCpp.KeyValueDB.db_ this = replay S R.

(** Keys are tokens; values are tokens or empty. *)
Definition keys_tokens (m : Mapping) : Prop :=
  map_Forall (fun k v => token k = true /\ (token v = true \/ v = EmptyString)) m.

(** * Properties *)

(** ** The loops, unfolded once *)

Ltac use_equations :=
  repeat match goal with
         | E : extract _ _ = _ |- _ => rewrite E; clear E
         | E : failbit _ = _ |- _ => rewrite E; clear E
         | E : String.eqb _ _ = _ |- _ => rewrite E; clear E
         | E : sigmaI _ _ _ = _ |- _ => clear E
         end;
  try reflexivity.

Lemma ExDBCpp_load_loop_unfold dbFile key value db :
  ExDBCpp.Storage.load_loop dbFile key value db =
  let '(dbFile1, key1) := extract dbFile key in
  let '(dbFile2, value1) := extract dbFile1 value in
  if failbit dbFile2 then db
  else ExDBCpp.Storage.load_loop dbFile2 key1 value1 (<[key1 := value1]> db).
Proof.
  funelim (ExDBCpp.Storage.load_loop dbFile key value db); use_equations.
Qed.

Lemma ExDBCpp_applyLog_loop_unfold walFile operation key value db :
  ExDBCpp.WAL.applyLog_loop walFile operation key value db =
  let '(walFile1, operation1) := extract walFile operation in
  let '(walFile2, key1) := extract walFile1 key in
  if failbit walFile2 then db
  else if String.eqb operation1 "PUT" then
    let '(walFile3, value1) := extract walFile2 value in
    ExDBCpp.WAL.applyLog_loop walFile3 operation1 key1 value1
                              (<[key1 := value1]> db)
  else if String.eqb operation1 "DEL" then
    ExDBCpp.WAL.applyLog_loop walFile2 operation1 key1 value (delete key1 db)
  else ExDBCpp.WAL.applyLog_loop walFile2 operation1 key1 value db.
Proof.
  funelim (ExDBCpp.WAL.applyLog_loop walFile operation key value db);
    use_equations.
Qed.

Lemma Part000_load_loop_unfold dbFile key value db :
  Part000.Storage.load_loop dbFile key value db =
  let '(dbFile1, key1) := extract dbFile key in
  let '(dbFile2, value1) := extract dbFile1 value in
  if failbit dbFile2 then db
  else Part000.Storage.load_loop dbFile2 key1 value1 (<[key1 := value1]> db).
Proof.
  funelim (Part000.Storage.load_loop dbFile key value db); use_equations.
Qed.

Lemma Part000_applyLog_loop_unfold walFile operation key value db :
  Part000.WAL.applyLog_loop walFile operation key value db =
  let '(walFile1, operation1) := extract walFile operation in
  let '(walFile2, key1) := extract walFile1 key in
  if failbit walFile2 then db
  else if String.eqb operation1 "PUT" then
    let '(walFile3, value1) := extract walFile2 value in
    Part000.WAL.applyLog_loop walFile3 operation1 key1 value1
                              (<[key1 := value1]> db)
  else if String.eqb operation1 "DEL" then
    Part000.WAL.applyLog_loop walFile2 operation1 key1 value (delete key1 db)
  else Part000.WAL.applyLog_loop walFile2 operation1 key1 value db.
Proof.
  funelim (Part000.WAL.applyLog_loop walFile operation key value db);
    use_equations.
Qed.

(** ** Strings *)

Lemma append_cons x (a b : string) : String x a ++ b = String x (a ++ b).
Proof. reflexivity. Qed.

Lemma append_empty_l (a : string) : EmptyString ++ a = a.
Proof. reflexivity. Qed.

Lemma append_assoc (a b c : string) : (a ++ b) ++ c = a ++ (b ++ c).
Proof.
  induction a as [|x a IH]; [reflexivity|].
  rewrite !append_cons. now rewrite IH.
Qed.

Lemma append_empty_r (a : string) : a ++ EmptyString = a.
Proof.
  induction a as [|x a IH]; [reflexivity|].
  rewrite append_cons. now rewrite IH.
Qed.

Lemma allws_delimited ws : allws ws = true -> delimited ws = true.
Proof.
  destruct ws as [|c ws]; simpl; [reflexivity|]. now intros [? _]%andb_prop.
Qed.

Lemma delimited_app ws r :
  allws ws = true -> ws <> EmptyString -> delimited (ws ++ r) = true.
Proof.
  destruct ws as [|c ws]; [congruence|]. rewrite append_cons. simpl.
  now intros [? _]%andb_prop.
Qed.

Lemma allws_app a b : allws a = true -> allws b = true -> allws (a ++ b) = true.
Proof.
  induction a as [|c a IH]; [auto|]. rewrite append_cons. simpl.
  intros [-> ?]%andb_prop ?. simpl. auto.
Qed.

Lemma skipws_app ws s : allws ws = true -> skipws (ws ++ s) = skipws s.
Proof.
  induction ws as [|c ws IH]; [reflexivity|]. rewrite append_cons. simpl.
  intros [-> ?]%andb_prop. auto.
Qed.

Lemma skipws_allws ws : allws ws = true -> skipws ws = EmptyString.
Proof.
  induction ws as [|c ws IH]; simpl; [reflexivity|].
  intros [-> ?]%andb_prop. auto.
Qed.

Lemma getword_app t r :
  nows t = true -> delimited r = true -> getword (t ++ r) = (t, r).
Proof.
  induction t as [|c t IH].
  - intros _. rewrite append_empty_l.
    destruct r as [|c r]; simpl; [reflexivity|]. now intros ->.
  - rewrite append_cons. simpl.
    intros [Hc Ht]%andb_prop Hr. apply negb_true_iff in Hc. rewrite Hc.
    now rewrite IH.
Qed.

(** ** Extraction of one token *)

Lemma extract_token ws t r var :
  allws ws = true -> token t = true -> delimited r = true ->
  extract {| buf := ws ++ t ++ r; failbit := false |} var
  = ({| buf := r; failbit := false |}, t).
Proof.
  intros Hws Ht Hr. unfold extract. simpl. rewrite skipws_app by exact Hws.
  destruct t as [|c t]; [discriminate|]. simpl in Ht.
  pose proof Ht as [Hc Ht']%andb_prop. apply negb_true_iff in Hc.
  rewrite append_cons. simpl. rewrite Hc. simpl.
  rewrite getword_app by assumption. rewrite ?Hc. reflexivity.
Qed.

Lemma extract_eof ws var :
  allws ws = true ->
  extract {| buf := ws; failbit := false |} var
  = ({| buf := EmptyString; failbit := true |}, var).
Proof.
  intros Hws. unfold extract. simpl. now rewrite skipws_allws.
Qed.

Lemma extract_failed b var :
  extract {| buf := b; failbit := true |} var
  = ({| buf := b; failbit := true |}, var).
Proof. reflexivity. Qed.

(** ** The loop of [Storage::load] on a well-formed text *)

Lemma load_loop_pair ws k ws1 v r key value db :
  allws ws = true -> token k = true ->
  allws ws1 = true -> ws1 <> EmptyString -> token v = true ->
  delimited r = true ->
  ExDBCpp.Storage.load_loop
    {| buf := ws ++ k ++ ws1 ++ v ++ r; failbit := false |} key value db
  = ExDBCpp.Storage.load_loop {| buf := r; failbit := false |} k v
      (<[k := v]> db).
Proof.
  intros Hws Hk Hws1 Hne Hv Hr. rewrite ExDBCpp_load_loop_unfold.
  rewrite (extract_token ws k) by auto using delimited_app.
  rewrite (extract_token ws1 v) by auto. reflexivity.
Qed.

Lemma load_loop_end ws key value db :
  allws ws = true ->
  ExDBCpp.Storage.load_loop {| buf := ws; failbit := false |} key value db
  = db.
Proof.
  intros Hws. rewrite ExDBCpp_load_loop_unfold.
  rewrite extract_eof by exact Hws. reflexivity.
Qed.

Lemma load_loop_dangling ws k ws' key value db :
  allws ws = true -> token k = true -> allws ws' = true ->
  ExDBCpp.Storage.load_loop
    {| buf := ws ++ k ++ ws'; failbit := false |} key value db
  = db.
Proof.
  intros Hws Hk Hws'. rewrite ExDBCpp_load_loop_unfold.
  rewrite (extract_token ws k) by auto using allws_delimited.
  rewrite extract_eof by exact Hws'. reflexivity.
Qed.

Lemma load_loop_table l tail :
  Forall entry_ok l ->
  (forall ws key value db, allws ws = true ->
     ExDBCpp.Storage.load_loop
       {| buf := ws ++ tail; failbit := false |} key value db = db) ->
  forall ws key value db, allws ws = true ->
    ExDBCpp.Storage.load_loop
      {| buf := ws ++ table_text l ++ tail; failbit := false |} key value db
    = assign_all db l.
Proof.
  intros Hl Htail. induction Hl as [|[k v] l [Hk Hv] _ IH];
    intros ws key value db Hws.
  - apply Htail, Hws.
  - change (table_text ((k, v) :: l))
      with ((k ++ " " ++ v ++ newline) ++ table_text l).
    rewrite !append_assoc. simpl in Hk, Hv.
    rewrite load_loop_pair by (auto; discriminate).
    rewrite IH by reflexivity. reflexivity.
Qed.

(** ** The loop of [WAL::applyLog] on a well-formed text *)

Lemma applyLog_loop_put ws ws1 k ws2 v r operation key value db :
  allws ws = true ->
  allws ws1 = true -> ws1 <> EmptyString -> token k = true ->
  allws ws2 = true -> ws2 <> EmptyString -> token v = true ->
  delimited r = true ->
  ExDBCpp.WAL.applyLog_loop
    {| buf := ws ++ "PUT" ++ ws1 ++ k ++ ws2 ++ v ++ r; failbit := false |}
    operation key value db
  = ExDBCpp.WAL.applyLog_loop {| buf := r; failbit := false |} "PUT" k v
      (<[k := v]> db).
Proof.
  intros Hws Hws1 Hne1 Hk Hws2 Hne2 Hv Hr.
  rewrite ExDBCpp_applyLog_loop_unfold.
  rewrite (extract_token ws "PUT") by auto using delimited_app.
  rewrite (extract_token ws1 k) by auto using delimited_app.
  cbn [failbit]. rewrite String.eqb_refl.
  rewrite (extract_token ws2 v) by auto. reflexivity.
Qed.

Lemma applyLog_loop_del ws ws1 k r operation key value db :
  allws ws = true ->
  allws ws1 = true -> ws1 <> EmptyString -> token k = true ->
  delimited r = true ->
  ExDBCpp.WAL.applyLog_loop
    {| buf := ws ++ "DEL" ++ ws1 ++ k ++ r; failbit := false |}
    operation key value db
  = ExDBCpp.WAL.applyLog_loop {| buf := r; failbit := false |} "DEL" k value
      (delete k db).
Proof.
  intros Hws Hws1 Hne1 Hk Hr.
  rewrite ExDBCpp_applyLog_loop_unfold.
  rewrite (extract_token ws "DEL") by auto using delimited_app.
  rewrite (extract_token ws1 k) by auto. reflexivity.
Qed.

Lemma applyLog_loop_end ws operation key value db :
  allws ws = true ->
  ExDBCpp.WAL.applyLog_loop {| buf := ws; failbit := false |}
    operation key value db = db.
Proof.
  intros Hws. rewrite ExDBCpp_applyLog_loop_unfold.
  rewrite extract_eof by exact Hws. reflexivity.
Qed.

Lemma applyLog_loop_failed b operation key value db :
  ExDBCpp.WAL.applyLog_loop {| buf := b; failbit := true |}
    operation key value db = db.
Proof. rewrite ExDBCpp_applyLog_loop_unfold. reflexivity. Qed.

Lemma applyLog_loop_truncated ws ws1 k ws2 operation key value db :
  allws ws = true ->
  allws ws1 = true -> ws1 <> EmptyString -> token k = true ->
  allws ws2 = true ->
  ExDBCpp.WAL.applyLog_loop
    {| buf := ws ++ "PUT" ++ ws1 ++ k ++ ws2; failbit := false |}
    operation key value db
  = <[k := value]> db.
Proof.
  intros Hws Hws1 Hne1 Hk Hws2.
  rewrite ExDBCpp_applyLog_loop_unfold.
  rewrite (extract_token ws "PUT") by auto using delimited_app.
  rewrite (extract_token ws1 k) by auto using allws_delimited.
  cbn [failbit]. rewrite String.eqb_refl.
  rewrite extract_eof by exact Hws2.
  apply applyLog_loop_failed.
Qed.

Lemma applyLog_loop_log R tail (F : string -> Mapping -> Mapping) :
  Forall record_ok R ->
  (forall ws operation key value db, allws ws = true ->
     ExDBCpp.WAL.applyLog_loop
       {| buf := ws ++ tail; failbit := false |} operation key value db
     = F value db) ->
  forall ws operation key value db, allws ws = true ->
    ExDBCpp.WAL.applyLog_loop
      {| buf := ws ++ log_text R ++ tail; failbit := false |}
      operation key value db
    = F (last_put_value value R) (replay db R).
Proof.
  intros HR Htail. induction HR as [|r R Hr _ IH];
    intros ws operation key value db Hws.
  - apply Htail, Hws.
  - change (log_text (r :: R)) with (record_line r ++ log_text R).
    destruct r as [k v|k]; simpl in Hr.
    + destruct Hr as [Hk Hv].
      change (record_line (Put k v))
        with (("PUT" ++ " " ++ k ++ " " ++ v ++ newline)).
      rewrite !append_assoc.
      rewrite applyLog_loop_put by (auto; discriminate).
      rewrite IH by reflexivity. reflexivity.
    + change (record_line (Delete k)) with ("DEL" ++ " " ++ k ++ newline).
      rewrite !append_assoc.
      rewrite applyLog_loop_del by (auto; discriminate).
      rewrite IH by reflexivity. reflexivity.
Qed.

(** ** Assignments in sequence *)

Lemma assign_all_app db l1 l2 :
  assign_all db (l1 ++ l2)%list = assign_all (assign_all db l1) l2.
Proof. apply foldl_app. Qed.

Lemma assign_all_lookup_notin db l (k : string) :
  k ∉ l.*1 -> assign_all db l !! k = db !! k.
Proof.
  revert db. induction l as [|[k' v'] l IH]; intros db Hk; [reflexivity|].
  rewrite fmap_cons, not_elem_of_cons in Hk. destruct Hk as [Hne Hk].
  simpl in *. rewrite IH by exact Hk. now rewrite lookup_insert_ne.
Qed.

Lemma assign_all_last db l1 k v l2 :
  k ∉ l2.*1 -> assign_all db (l1 ++ (k, v) :: l2)%list !! k = Some v.
Proof.
  intros Hk. rewrite assign_all_app. simpl.
  rewrite assign_all_lookup_notin by exact Hk. apply lookup_insert_eq.
Qed.

Lemma assign_all_list_to_map l :
  assign_all ∅ l = list_to_map (reverse l).
Proof.
  unfold assign_all. rewrite <- (reverse_involutive l) at 1.
  generalize (reverse l). clear l. intros l.
  induction l as [|[k v] l IH]; [reflexivity|].
  rewrite reverse_cons, foldl_app. simpl. now rewrite IH.
Qed.

Lemma assign_all_elements (m : Mapping) l :
  l ≡ₚ map_to_list m -> assign_all ∅ l = m.
Proof.
  intros Hl. rewrite assign_all_list_to_map. symmetry.
  apply list_to_map_flip. now rewrite reverse_Permutation.
Qed.

Lemma tokens_only_elements (m : Mapping) l :
  tokens_only m -> l ≡ₚ map_to_list m -> Forall entry_ok l.
Proof.
  intros Hm Hl. rewrite Hl. apply Forall_forall. intros [k v] Hkv.
  apply elem_of_map_to_list in Hkv. exact (Hm k v Hkv).
Qed.

(** ** The two sources run the same loops *)

Lemma load_loop_agree dbFile key value db :
  Part000.Storage.load_loop dbFile key value db
  = ExDBCpp.Storage.load_loop dbFile key value db.
Proof.
  funelim (Part000.Storage.load_loop dbFile key value db);
    rewrite ExDBCpp_load_loop_unfold;
    repeat match goal with
           | E : sigmaI _ _ _ = _ |- _ => clear E
           | E : _ = Part000.Storage.load_loop _ _ _ _ |- _ => clear E
           end;
    use_equations; assumption.
Qed.

Lemma applyLog_loop_agree walFile operation key value db :
  Part000.WAL.applyLog_loop walFile operation key value db
  = ExDBCpp.WAL.applyLog_loop walFile operation key value db.
Proof.
  funelim (Part000.WAL.applyLog_loop walFile operation key value db);
    rewrite ExDBCpp_applyLog_loop_unfold;
    repeat match goal with
           | E : sigmaI _ _ _ = _ |- _ => clear E
           | E : _ = Part000.WAL.applyLog_loop _ _ _ _ _ |- _ => clear E
           end;
    use_equations; assumption.
Qed.

Lemma Storage_load_agree src os name fs :
  Storage_load src os name fs = Storage_load exDB_cpp os name fs.
Proof.
  destruct src; [reflexivity|].
  unfold Storage_load, Part000.Storage.load, ExDBCpp.Storage.load. simpl.
  apply load_loop_agree.
Qed.

Lemma WAL_applyLog_loop_agree src walFile operation key value db :
  WAL_applyLog_loop src walFile operation key value db
  = ExDBCpp.WAL.applyLog_loop walFile operation key value db.
Proof. destruct src; [reflexivity|]. apply applyLog_loop_agree. Qed.

Lemma WAL_applyLog_agree src os name db fs :
  WAL_applyLog src os name db fs = WAL_applyLog exDB_cpp os name db fs.
Proof.
  destruct src; [reflexivity|].
  unfold WAL_applyLog, Part000.WAL.applyLog, ExDBCpp.WAL.applyLog. simpl.
  apply applyLog_loop_agree.
Qed.

Lemma constructed_agree src os dbFileName walFileName fs :
  constructed src os dbFileName walFileName fs
  = WAL_applyLog exDB_cpp os walFileName
      (Storage_load exDB_cpp os dbFileName fs) fs.
Proof.
  destruct src; [reflexivity|].
  rewrite <- (Storage_load_agree part_000), <- (WAL_applyLog_agree part_000).
  reflexivity.
Qed.

Lemma Storage_save_agree os order name db fs :
  Part000.Storage.save os order {| Part000.Storage.dbFileName_ := name |} db fs
  = ExDBCpp.Storage.save os order
      {| ExDBCpp.Storage.dbFileName_ := name |} db fs.
Proof. reflexivity. Qed.

(** ** Paths and files *)

Lemma file_text_insert_eq os (fs : FS) name file text :
  can_read os name file ->
  file_text os (<[file := text]> fs) name = Some text.
Proof. unfold file_text. intros [-> ->]. apply lookup_insert_eq. Qed.

Lemma file_text_insert_ne os (fs : FS) name file text :
  locate os name <> Some file ->
  file_text os (<[file := text]> fs) name = file_text os fs name.
Proof.
  unfold file_text. intros Hne. destruct (locate os name) as [file'|];
    [|reflexivity].
  destruct (readable os file'); [|reflexivity].
  apply lookup_insert_ne. congruence.
Qed.

Lemma can_write_open os name file :
  can_write os name file -> open_for_writing os name = Some file.
Proof. unfold open_for_writing. now intros [-> ->]. Qed.

Lemma open_for_writing_locate os name file :
  open_for_writing os name = Some file -> locate os name = Some file.
Proof.
  unfold open_for_writing. destruct (locate os name) as [file'|]; [|easy].
  destruct (writable os file'); [now intros [= ->]|easy].
Qed.

Lemma file_holds_default os fs name file text :
  can_read os name file -> file_holds os fs name text ->
  default EmptyString (fs !! file) = text.
Proof.
  unfold file_holds, file_text. intros [-> ->]. now intros [->|[-> ->]].
Qed.

Lemma file_holds_insert_eq os (fs : FS) name file text :
  can_read os name file ->
  file_holds os (<[file := text]> fs) name text.
Proof. intros Hl. left. now apply file_text_insert_eq. Qed.

Lemma file_holds_insert_ne os (fs : FS) name file text text' :
  locate os name <> Some file -> file_holds os fs name text ->
  file_holds os (<[file := text']> fs) name text.
Proof.
  intros Hne H. unfold file_holds. now rewrite file_text_insert_ne.
Qed.

(** ** What the writers leave *)

Lemma save_fold f l :
  foldl (fun dbFile pair =>
           write (write (write (write dbFile pair.1) " ") pair.2) newline)
        f l
  = {| target := target f; out := out f ++ table_text l |}.
Proof.
  revert f. induction l as [|[k v] l IH]; intros [t o]; simpl.
  - now rewrite append_empty_r.
  - rewrite IH. unfold write, entry_line. simpl. now rewrite !append_assoc.
Qed.

Lemma save_text os order this db fs :
  ExDBCpp.Storage.save os order this db fs
  = match open_for_writing os (ExDBCpp.Storage.dbFileName_ this) with
    | Some file => <[file := table_text (order db)]> fs
    | None => fs
    end.
Proof.
  unfold ExDBCpp.Storage.save, ofstream_close, ofstream_trunc.
  rewrite save_fold. simpl.
  now destruct (open_for_writing os (ExDBCpp.Storage.dbFileName_ this)).
Qed.

Lemma clearLog_text os this fs :
  ExDBCpp.WAL.clearLog os this fs
  = match open_for_writing os (ExDBCpp.WAL.walFileName_ this) with
    | Some file => <[file := EmptyString]> fs
    | None => fs
    end.
Proof. reflexivity. Qed.

Lemma logWriteOperation_line os this key value fs :
  ExDBCpp.WAL.logWriteOperation os this key value fs
  = match open_for_writing os (ExDBCpp.WAL.walFileName_ this) with
    | Some file =>
        <[file := default EmptyString (fs !! file)
                  ++ record_line (Put key value)]> fs
    | None => fs
    end.
Proof.
  unfold ExDBCpp.WAL.logWriteOperation, ofstream_app, ofstream_close.
  destruct (open_for_writing os (ExDBCpp.WAL.walFileName_ this));
    [|reflexivity].
  unfold write. simpl. now rewrite !append_assoc.
Qed.

Lemma logDeleteOperation_line os this key fs :
  ExDBCpp.WAL.logDeleteOperation os this key fs
  = match open_for_writing os (ExDBCpp.WAL.walFileName_ this) with
    | Some file =>
        <[file := default EmptyString (fs !! file)
                  ++ record_line (Delete key)]> fs
    | None => fs
    end.
Proof.
  unfold ExDBCpp.WAL.logDeleteOperation, ofstream_app, ofstream_close.
  destruct (open_for_writing os (ExDBCpp.WAL.walFileName_ this));
    [|reflexivity].
  unfold write. simpl. now rewrite !append_assoc.
Qed.

(** ** What the readers find *)

Lemma load_text os this fs text :
  file_text os fs (ExDBCpp.Storage.dbFileName_ this) = Some text ->
  ExDBCpp.Storage.load os this fs
  = ExDBCpp.Storage.load_loop {| buf := text; failbit := false |}
      EmptyString EmptyString ∅.
Proof.
  intros Hfs. unfold ExDBCpp.Storage.load, ifstream_open. now rewrite Hfs.
Qed.

Lemma load_missing os this fs :
  file_text os fs (ExDBCpp.Storage.dbFileName_ this) = None ->
  ExDBCpp.Storage.load os this fs = ∅.
Proof.
  intros Hfs. unfold ExDBCpp.Storage.load, ifstream_open. rewrite Hfs.
  now rewrite ExDBCpp_load_loop_unfold.
Qed.

Lemma load_table os this fs l :
  Forall entry_ok l ->
  file_holds os fs (ExDBCpp.Storage.dbFileName_ this) (table_text l) ->
  ExDBCpp.Storage.load os this fs = assign_all ∅ l.
Proof.
  intros Hl [Hfs|[Hfs Ht]].
  - rewrite (load_text _ _ _ _ Hfs).
    pose proof (load_loop_table l EmptyString Hl) as H.
    specialize (H (fun ws key value db Hws =>
      eq_trans (f_equal (fun b => ExDBCpp.Storage.load_loop
                  {| buf := b; failbit := false |} key value db)
                  (append_empty_r ws))
               (load_loop_end ws key value db Hws))).
    specialize (H EmptyString EmptyString EmptyString ∅ eq_refl).
    rewrite append_empty_l, append_empty_r in H. exact H.
  - rewrite load_missing by exact Hfs.
    destruct l as [|[k v] l]; [reflexivity|].
    destruct k; discriminate Ht.
Qed.

Lemma applyLog_text os this fs text db :
  file_text os fs (ExDBCpp.WAL.walFileName_ this) = Some text ->
  ExDBCpp.WAL.applyLog os this db fs
  = ExDBCpp.WAL.applyLog_loop {| buf := text; failbit := false |}
      EmptyString EmptyString EmptyString db.
Proof.
  intros Hfs. unfold ExDBCpp.WAL.applyLog, ifstream_open. now rewrite Hfs.
Qed.

Lemma applyLog_missing os this fs db :
  file_text os fs (ExDBCpp.WAL.walFileName_ this) = None ->
  ExDBCpp.WAL.applyLog os this db fs = db.
Proof.
  intros Hfs. unfold ExDBCpp.WAL.applyLog, ifstream_open. rewrite Hfs.
  apply applyLog_loop_failed.
Qed.

Lemma applyLog_log_tail os this fs R tail F db :
  Forall record_ok R ->
  (forall ws operation key value db, allws ws = true ->
     ExDBCpp.WAL.applyLog_loop
       {| buf := ws ++ tail; failbit := false |} operation key value db
     = F value db) ->
  file_text os fs (ExDBCpp.WAL.walFileName_ this) = Some (log_text R ++ tail) ->
  ExDBCpp.WAL.applyLog os this db fs
  = F (last_put_value EmptyString R) (replay db R).
Proof.
  intros HR Htail Hfs. rewrite (applyLog_text _ _ _ _ _ Hfs).
  pose proof (applyLog_loop_log R tail F HR Htail EmptyString
                EmptyString EmptyString EmptyString db eq_refl) as H.
  rewrite append_empty_l in H. exact H.
Qed.

Lemma applyLog_loop_end_empty_tail ws operation key value db :
  allws ws = true ->
  ExDBCpp.WAL.applyLog_loop {| buf := ws ++ EmptyString; failbit := false |}
    operation key value db = db.
Proof. rewrite append_empty_r. apply applyLog_loop_end. Qed.

Lemma applyLog_log os this fs R db :
  Forall record_ok R ->
  file_holds os fs (ExDBCpp.WAL.walFileName_ this) (log_text R) ->
  ExDBCpp.WAL.applyLog os this db fs = replay db R.
Proof.
  intros HR [Hfs|[Hfs Ht]].
  - rewrite <- (append_empty_r (log_text R)) in Hfs.
    exact (applyLog_log_tail os this fs R EmptyString (fun _ db => db) db HR
             applyLog_loop_end_empty_tail Hfs).
  - rewrite applyLog_missing by exact Hfs.
    destruct R as [|[k v|k] R]; [reflexivity|discriminate Ht..].
Qed.

Lemma log_text_app R1 R2 :
  log_text (R1 ++ R2)%list = log_text R1 ++ log_text R2.
Proof.
  induction R1 as [|r R1 IH]; [reflexivity|].
  simpl. rewrite IH. now rewrite append_assoc.
Qed.

Lemma log_text_snoc R r : log_text (R ++ [r])%list = log_text R ++ record_line r.
Proof. rewrite log_text_app. simpl. now rewrite append_empty_r. Qed.

Lemma length_append (a b : string) :
  String.length (a ++ b) = String.length a + String.length b.
Proof.
  induction a as [|x a IH]; [reflexivity|].
  rewrite append_cons. simpl. now rewrite IH.
Qed.

(** ** The value left in the variable [value] *)

Lemma last_put_value_deletes value R :
  Forall (fun r => exists key, r = Delete key) R ->
  last_put_value value R = value.
Proof.
  intros HR. revert value. induction HR as [|r R [key ->] _ IH];
    intros value; [reflexivity|]. apply IH.
Qed.

Lemma last_put_value_put value0 R1 key value R2 :
  Forall (fun r => exists key, r = Delete key) R2 ->
  last_put_value value0 (R1 ++ Put key value :: R2)%list = value.
Proof.
  intros HR2. unfold last_put_value. rewrite foldl_app. simpl.
  now apply last_put_value_deletes.
Qed.

(** Closes a decidable hypothesis on concrete data by evaluation. *)
Ltac by_evaluation := refine (bool_decide_unpack _ _); vm_compute; exact I.

(** * The claims *)

(** C3, as the code has it.  Round trip of the table file: when the path
    of the table names a file that may be opened for writing and for
    reading, a Mapping
    whose keys and values are non-empty and free of white space is read
    back by [Storage::load] exactly as [Storage::save] was given it,
    whatever the order in which the entries were written. *)
Theorem save_load_roundtrip (os : system) (order : iteration) this
  (M : Mapping) (fs : FS) file :
  can_write os (ExDBCpp.Storage.dbFileName_ this) file ->
  can_read os (ExDBCpp.Storage.dbFileName_ this) file ->
  tokens_only M ->
  ExDBCpp.Storage.load os this (ExDBCpp.Storage.save os order this M fs) = M.
Proof.
  intros Hw Hr HM. rewrite save_text, (can_write_open _ _ _ Hw).
  rewrite (load_table os this _ (order M)).
  - apply assign_all_elements, elements_perm.
  - eapply tokens_only_elements; [exact HM|apply elements_perm].
  - apply file_holds_insert_eq, Hr.
Qed.

Lemma save_load_roundtrip_witness :
  let M : Mapping := <["name" := "Alice"]> (<["age" := "30"]> ∅) in
  let this := {| ExDBCpp.Storage.dbFileName_ := "db.txt" |} in
  ExDBCpp.Storage.load sample_system this
    (ExDBCpp.Storage.save sample_system listed_iteration this M ∅) = M.
Proof.
  intros M this.
  apply (save_load_roundtrip sample_system listed_iteration this M ∅ "db.txt").
  - split; reflexivity.
  - split; reflexivity.
  - by_evaluation.
Defined.

(** C3, as stated, fails: under a path that cannot be opened (here the
    empty path) [Storage::save] writes nothing, and a file that was
    written but may not be read is not read back; in both cases
    [Storage::load] returns the empty Mapping. *)
Lemma save_load_counterexample :
  let M : Mapping := <["name" := "Alice"]> ∅ in
  let unopened := {| ExDBCpp.Storage.dbFileName_ := EmptyString |} in
  let sealed := {| ExDBCpp.Storage.dbFileName_ := "sealed.txt" |} in
  tokens_only M
  /\ ExDBCpp.Storage.load sample_system unopened
       (ExDBCpp.Storage.save sample_system listed_iteration unopened M ∅) <> M
  /\ ExDBCpp.Storage.save sample_system listed_iteration sealed M ∅
     = <["sealed.txt" := "name Alice" ++ newline]> ∅
  /\ ExDBCpp.Storage.load sample_system sealed
       (ExDBCpp.Storage.save sample_system listed_iteration sealed M ∅) <> M.
Proof.
  intros M unopened sealed. split; [by_evaluation|].
  split; [|split; [vm_compute; reflexivity|]];
    intros H; apply (f_equal (fun m : Mapping => m !! "name")) in H;
    vm_compute in H; discriminate H.
Qed.

(** C8. Edge cases of [Storage::load], in both sources: a table file that
    is missing or cannot be opened, and an empty file, give the empty
    Mapping; a key without a value at the end of the file is ignored;
    when a key occurs on several lines, the last line read gives its
    value. *)
Theorem load_edge_cases (src : source) (os : system) name file (fs : FS)
  l k ws v l1 l2 :
  can_read os name file ->
  Forall entry_ok l -> token k = true -> allws ws = true ->
  Forall entry_ok (l1 ++ (k, v) :: l2)%list -> k ∉ l2.*1 ->
  (file_text os fs name = None -> Storage_load src os name fs = ∅)
  /\ Storage_load src os name (<[file := EmptyString]> fs) = ∅
  /\ Storage_load src os name (<[file := table_text l ++ k ++ ws]> fs)
     = Storage_load src os name (<[file := table_text l]> fs)
  /\ Storage_load src os name (<[file := table_text l]> fs) = assign_all ∅ l
  /\ Storage_load src os name
       (<[file := table_text (l1 ++ (k, v) :: l2)%list]> fs) !! k = Some v.
Proof.
  intros Hfile Hl Hk Hws Hdup Hlast. rewrite !(Storage_load_agree src).
  unfold Storage_load.
  set (this := {| ExDBCpp.Storage.dbFileName_ := name |}).
  assert (Hfull : ExDBCpp.Storage.load os this (<[file := table_text l]> fs)
                  = assign_all ∅ l).
  { apply load_table; [exact Hl|]. now apply file_holds_insert_eq. }
  repeat split.
  - intros Hnone. now apply load_missing.
  - rewrite (load_text os this _ EmptyString)
      by now apply file_text_insert_eq.
    now apply load_loop_end.
  - rewrite Hfull.
    rewrite (load_text os this _ (table_text l ++ k ++ ws))
      by now apply file_text_insert_eq.
    pose proof (load_loop_table l (k ++ ws) Hl) as H.
    specialize (H (fun ws0 key value db Hws0 =>
                     load_loop_dangling ws0 k ws key value db Hws0 Hk Hws)).
    specialize (H EmptyString EmptyString EmptyString ∅ eq_refl).
    rewrite append_empty_l in H. exact H.
  - exact Hfull.
  - rewrite (load_table os this _ (l1 ++ (k, v) :: l2)%list Hdup)
      by now apply file_holds_insert_eq.
    now apply assign_all_last.
Qed.

Lemma load_edge_cases_witness :
  let fs : FS := <["db.txt" := "stale text"]> ∅ in
  let l := [("name", "Alice"); ("age", "30")] in
  Storage_load part_000 sample_system "./db.txt" (<["db.txt" := EmptyString]> fs)
  = ∅
  /\ Storage_load part_000 sample_system "./db.txt"
       (<["db.txt" := table_text l ++ "city" ++ newline]> fs)
     = assign_all ∅ l
  /\ Storage_load part_000 sample_system "./db.txt"
       (<["db.txt" :=
            table_text ([("age", "29")] ++ ("age", "30") :: [("name", "Bob")])
        ]> fs) !! "age" = Some "30".
Proof.
  intros fs l.
  destruct (load_edge_cases part_000 sample_system "./db.txt" "db.txt" fs
              l "city" newline "30" [("age", "29")] [("name", "Bob")])
    as (_ & Hempty & Hkey & Hfull & Hlast).
  - split; reflexivity.
  - by_evaluation.
  - reflexivity.
  - reflexivity.
  - by_evaluation.
  - by_evaluation.
  - split; [exact Hempty|]. split; [exact (eq_trans Hkey Hfull)|exact Hlast].
Defined.

(** C1, as the code has it.  Recovery equivalence, in both sources: when
    the table file holds a snapshot [S] (its entries, one per line, in
    any order) and the log file holds the records [R] (one per line, in
    append order), all keys and values being non-empty and free of white
    space, the facade built on them has the Mapping obtained from [S] by
    applying the records of [R] from first to last. *)
Theorem recovery_equivalence (src : source) (os : system)
  dbFileName walFileName (fs : FS) (S : Mapping) l R :
  tokens_only S -> l ≡ₚ map_to_list S -> Forall record_ok R ->
  file_holds os fs dbFileName (table_text l) ->
  file_holds os fs walFileName (log_text R) ->
  constructed src os dbFileName walFileName fs = replay S R.
Proof.
  intros HS Hl HR Hdb Hwal. rewrite constructed_agree.
  unfold Storage_load, WAL_applyLog.
  rewrite (load_table _ _ fs l); [| | exact Hdb].
  - rewrite (assign_all_elements S l Hl). now apply applyLog_log.
  - exact (tokens_only_elements S l HS Hl).
Qed.

Lemma recovery_equivalence_witness :
  let S : Mapping := <["name" := "Alice"]> (<["age" := "30"]> ∅) in
  let R := [Put "city" "Paris"; Delete "name"; Put "age" "31"] in
  let fs : FS :=
    <["db.txt" := table_text (map_to_list S)]>
      (<["wal.txt" := log_text R]> ∅) in
  constructed part_000 sample_system "db.txt" "wal.txt" fs = replay S R.
Proof.
  intros S R fs.
  apply (recovery_equivalence part_000 sample_system "db.txt" "wal.txt" fs S
           (map_to_list S) R).
  - by_evaluation.
  - reflexivity.
  - by_evaluation.
  - left. reflexivity.
  - left. reflexivity.
Defined.

(** C1, as stated, fails: the record [Put "a b" "c"], which [put] writes
    to the log as the line [PUT a b c], is replayed as the entry of [a]
    with the value [b]. *)
Lemma recovery_counterexample :
  let S : Mapping := ∅ in
  let R := [Put "a b" "c"] in
  let fs : FS := <["wal.txt" := log_text R]> ∅ in
  file_holds sample_system fs "db.txt" (table_text (map_to_list S))
  /\ file_holds sample_system fs "wal.txt" (log_text R)
  /\ (ExDBCpp.KeyValueDB.put sample_system "a b" "c"
        (ExDBCpp.KeyValueDB.new sample_system "db.txt" "wal.txt" ∅, ∅)).2 = fs
  /\ constructed exDB_cpp sample_system "db.txt" "wal.txt" fs <> replay S R
  /\ constructed part_000 sample_system "db.txt" "wal.txt" fs <> replay S R.
Proof.
  intros S R fs.
  split; [right; split; reflexivity|]. split; [left; reflexivity|].
  split; [vm_compute; reflexivity|].
  split; intros H; apply (f_equal (fun m : Mapping => m !! "a")) in H;
    vm_compute in H; discriminate H.
Qed.

(** C4. Replay semantics of [WAL::applyLog], in both sources: the records
    of the log are applied to the Mapping in file order; [PUT key value]
    sets the entry of [key] to [value]; [DEL key] erases [key] and
    changes nothing when [key] has no entry; after [DEL key] the replay
    goes on with the text that follows the key token, whatever that text
    is. *)
Theorem applyLog_replay (src : source) (os : system) walFileName (fs : FS)
  (db : Mapping) R ws ws1 k ws2 v r operation key value :
  Forall record_ok R ->
  file_holds os fs walFileName (log_text R) ->
  allws ws = true -> allws ws1 = true -> ws1 <> EmptyString ->
  token k = true -> allws ws2 = true -> ws2 <> EmptyString ->
  token v = true -> delimited r = true ->
  WAL_applyLog src os walFileName db fs = replay db R
  /\ WAL_applyLog_loop src
       {| buf := ws ++ "PUT" ++ ws1 ++ k ++ ws2 ++ v ++ r; failbit := false |}
       operation key value db
     = WAL_applyLog_loop src {| buf := r; failbit := false |} "PUT" k v
         (<[k := v]> db)
  /\ WAL_applyLog_loop src
       {| buf := ws ++ "DEL" ++ ws1 ++ k ++ r; failbit := false |}
       operation key value db
     = WAL_applyLog_loop src {| buf := r; failbit := false |} "DEL" k
         value (delete k db)
  /\ (db !! k = None ->
      WAL_applyLog_loop src
        {| buf := ws ++ "DEL" ++ ws1 ++ k ++ r; failbit := false |}
        operation key value db
      = WAL_applyLog_loop src {| buf := r; failbit := false |} "DEL" k
          value db).
Proof.
  intros HR Hfs Hws Hws1 Hne1 Hk Hws2 Hne2 Hv Hr.
  rewrite (WAL_applyLog_agree src), !(WAL_applyLog_loop_agree src).
  split; [now apply applyLog_log|].
  split; [now apply applyLog_loop_put|].
  split; [now apply applyLog_loop_del|].
  intros Hnone. rewrite applyLog_loop_del by assumption.
  now rewrite delete_id.
Qed.

Lemma applyLog_replay_witness :
  let R := [Put "name" "Alice"; Delete "name"; Put "age" "30";
            Put "age" "31"; Delete "city"] in
  let fs : FS := <["wal.txt" := log_text R]> ∅ in
  let db : Mapping := <["city" := "Paris"]> ∅ in
  WAL_applyLog part_000 sample_system "wal.txt" db fs = replay db R
  /\ WAL_applyLog_loop part_000
       {| buf := newline ++ "PUT" ++ " " ++ "name" ++ " " ++ "Bob" ++ newline;
          failbit := false |} EmptyString EmptyString EmptyString db
     = WAL_applyLog_loop part_000 {| buf := newline; failbit := false |}
         "PUT" "name" "Bob" (<["name" := "Bob"]> db)
  /\ WAL_applyLog_loop part_000
       {| buf := newline ++ "DEL" ++ " " ++ "name" ++ newline;
          failbit := false |} EmptyString EmptyString EmptyString db
     = WAL_applyLog_loop part_000 {| buf := newline; failbit := false |}
         "DEL" "name" EmptyString (delete "name" db)
  /\ (db !! "name" = None ->
      WAL_applyLog_loop part_000
        {| buf := newline ++ "DEL" ++ " " ++ "name" ++ newline;
           failbit := false |} EmptyString EmptyString EmptyString db
      = WAL_applyLog_loop part_000 {| buf := newline; failbit := false |}
          "DEL" "name" EmptyString db).
Proof.
  intros R fs db.
  apply (applyLog_replay part_000 sample_system "wal.txt" fs db R newline
           " " "name" " " "Bob" newline EmptyString EmptyString EmptyString).
  - by_evaluation.
  - left. reflexivity.
  - reflexivity.
  - reflexivity.
  - discriminate.
  - reflexivity.
  - reflexivity.
  - discriminate.
  - reflexivity.
  - reflexivity.
Defined.

(** C9. A final [PUT key] without a value, in both sources: the
    assignment [db[key] = value] is still executed, with the content the
    variable [value] has at that point: the value of the last complete
    PUT record before it, the empty string when there is none. *)
Theorem applyLog_truncated_put (src : source) (os : system) walFileName
  (fs : FS) (db : Mapping) R ws1 k ws2 :
  Forall record_ok R ->
  allws ws1 = true -> ws1 <> EmptyString -> token k = true ->
  allws ws2 = true ->
  file_text os fs walFileName = Some (log_text R ++ "PUT" ++ ws1 ++ k ++ ws2) ->
  WAL_applyLog src os walFileName db fs
  = <[k := last_put_value EmptyString R]> (replay db R).
Proof.
  intros HR Hws1 Hne1 Hk Hws2 Hfs. rewrite (WAL_applyLog_agree src).
  apply (applyLog_log_tail os _ fs R ("PUT" ++ ws1 ++ k ++ ws2)
           (fun value db => <[k := value]> db) db HR); [|exact Hfs].
  intros ws operation key value db' Hws.
  now apply applyLog_loop_truncated.
Qed.

Lemma applyLog_truncated_put_witness :
  let R := [Put "x" "new"; Delete "y"] in
  let fs : FS := <["wal.txt" := log_text R ++ "PUT" ++ " " ++ "k" ++ newline]> ∅ in
  let db : Mapping := <["k" := "old"]> ∅ in
  WAL_applyLog part_000 sample_system "wal.txt" db fs
  = <["k" := "new"]> (replay db R).
Proof.
  intros R fs db.
  apply (applyLog_truncated_put part_000 sample_system "wal.txt" fs db R
           " " "k" newline).
  - by_evaluation.
  - reflexivity.
  - discriminate.
  - reflexivity.
  - reflexivity.
  - reflexivity.
Defined.

(** C5. The table file holds [k old]; the log holds a complete
    [PUT x new] and then [PUT k] cut before its value.  The facade built
    on them binds [k] to [new]: the cut record is not dropped, and the
    entry of [k] is not the one the table file gave it.  Both sources
    behave so. *)
Theorem truncated_put_not_dropped :
  let fs : FS :=
    <["db.txt" := "k old" ++ newline]>
      (<["wal.txt" := "PUT x new" ++ newline ++ "PUT k"]> ∅) in
  ExDBCpp.Storage.load sample_system
    {| ExDBCpp.Storage.dbFileName_ := "db.txt" |} fs !! "k" = Some "old"
  /\ ExDBCpp.KeyValueDB.db_
       (ExDBCpp.KeyValueDB.new sample_system "db.txt" "wal.txt" fs)
       !! "k" = Some "new"
  /\ Part000.ExDB.db_ (Part000.ExDB.new sample_system "db.txt" "wal.txt" fs)
       !! "k" = Some "new".
Proof. vm_compute. repeat split; reflexivity. Qed.

(** C6. [get], in both sources, returns the value stored under the key
    when there is one and the text [Key not found] when there is none,
    and leaves the Mapping and every file as they were. *)
Theorem get_contract key (st : ExDBCpp.KeyValueDB.state)
  (st0 : Part000.ExDB.state) :
  (let '(result, st') := ExDBCpp.KeyValueDB.get key st in
   st' = st
   /\ (forall value, ExDBCpp.KeyValueDB.db_ st.1 !! key = Some value ->
         result = value)
   /\ (ExDBCpp.KeyValueDB.db_ st.1 !! key = None ->
         result = "Key not found"))
  /\ (let '(result, st') := Part000.ExDB.get key st0 in
      st' = st0
      /\ (forall value, Part000.ExDB.db_ st0.1 !! key = Some value ->
            result = value)
      /\ (Part000.ExDB.db_ st0.1 !! key = None ->
            result = "Key not found")).
Proof.
  destruct st as [this fs], st0 as [this0 fs0].
  unfold ExDBCpp.KeyValueDB.get, Part000.ExDB.get. simpl. split.
  - destruct (ExDBCpp.KeyValueDB.db_ this !! key) as [second|];
      (split; [reflexivity|split; congruence]).
  - destruct (Part000.ExDB.db_ this0 !! key) as [second|];
      (split; [reflexivity|split; congruence]).
Qed.

Lemma get_contract_witness :
  let st : ExDBCpp.KeyValueDB.state :=
    ExDBCpp.KeyValueDB.put sample_system "age" "30"
      (ExDBCpp.KeyValueDB.new sample_system "db.txt" "wal.txt" ∅, ∅) in
  let st0 : Part000.ExDB.state :=
    Part000.ExDB.put sample_system "age" "30"
      (Part000.ExDB.new sample_system "db.txt" "wal.txt" ∅, ∅) in
  (ExDBCpp.KeyValueDB.get "age" st).1 = "30"
  /\ (Part000.ExDB.get "name" st0).1 = "Key not found".
Proof.
  intros st st0.
  generalize (get_contract "age" st st0), (get_contract "name" st st0).
  generalize (ExDBCpp.KeyValueDB.get "age" st), (Part000.ExDB.get "name" st0),
    (ExDBCpp.KeyValueDB.get "name" st), (Part000.ExDB.get "age" st0).
  intros [r1 st1] [r2 st2] [r3 st3] [r4 st4].
  intros [(_ & Hsome & _) _] [_ (_ & _ & Hnone)].
  split; [apply Hsome; reflexivity|apply Hnone; reflexivity].
Defined.

(** ** Building and merging on well-formed files *)

Lemma new_on_files os dbFileName walFileName (fs : FS) (S : Mapping) l R :
  tokens_only S -> l ≡ₚ map_to_list S -> Forall record_ok R ->
  file_holds os fs dbFileName (table_text l) ->
  file_holds os fs walFileName (log_text R) ->
  ExDBCpp.KeyValueDB.db_ (ExDBCpp.KeyValueDB.new os dbFileName walFileName fs)
  = replay S R.
Proof.
  intros HS Hl HR Hdb Hwal. unfold ExDBCpp.KeyValueDB.new. simpl.
  rewrite (load_table _ _ fs l); [| | exact Hdb].
  - rewrite (assign_all_elements S l Hl). now apply applyLog_log.
  - exact (tokens_only_elements S l HS Hl).
Qed.

Lemma mergeLogs_files os order db dbn waln fs dbFile walFile :
  can_write os dbn dbFile -> can_write os waln walFile ->
  (ExDBCpp.KeyValueDB.mergeLogs os order
     ({| ExDBCpp.KeyValueDB.db_ := db;
         ExDBCpp.KeyValueDB.storage_ := {| ExDBCpp.Storage.dbFileName_ := dbn |};
         ExDBCpp.KeyValueDB.wal_ := {| ExDBCpp.WAL.walFileName_ := waln |} |},
      fs)).2
  = <[walFile := EmptyString]> (<[dbFile := table_text (order db)]> fs).
Proof.
  intros Hd Hw. unfold ExDBCpp.KeyValueDB.mergeLogs. simpl.
  rewrite save_text, clearLog_text. simpl.
  now rewrite (can_write_open _ _ _ Hd), (can_write_open _ _ _ Hw).
Qed.

Lemma tokens_merge_converges (os : system) (order : iteration)
  (st : ExDBCpp.KeyValueDB.state) :
  two_files os
    (ExDBCpp.Storage.dbFileName_ (ExDBCpp.KeyValueDB.storage_ st.1))
    (ExDBCpp.WAL.walFileName_ (ExDBCpp.KeyValueDB.wal_ st.1)) ->
  tokens_only (ExDBCpp.KeyValueDB.db_ st.1) ->
  merge_converges os order st.
Proof.
  destruct st as [[db [dbn] [waln]] fs]. simpl.
  intros (dbFile & walFile & [Hd Hdr] & [Hw Hwr] & Hne) Hdb.
  unfold merge_converges. cbn [fst snd ExDBCpp.KeyValueDB.db_
    ExDBCpp.KeyValueDB.storage_ ExDBCpp.KeyValueDB.wal_
    ExDBCpp.Storage.dbFileName_ ExDBCpp.WAL.walFileName_].
  rewrite (mergeLogs_files os order db dbn waln fs dbFile walFile Hd Hw).
  pose proof (tokens_only_elements db (order db) Hdb (elements_perm order db))
    as Hl.
  assert (Htable : file_holds os
                     (<[walFile := EmptyString]>
                        (<[dbFile := table_text (order db)]> fs))
                     dbn (table_text (order db))).
  { apply file_holds_insert_ne; [destruct Hd as [-> _]; congruence|].
    apply file_holds_insert_eq, Hdr. }
  assert (Hlog : file_holds os
                   (<[walFile := EmptyString]>
                      (<[dbFile := table_text (order db)]> fs))
                   waln (log_text [])).
  { apply file_holds_insert_eq, Hwr. }
  split; [reflexivity|]. split; [|split; [exact Hlog|]].
  - rewrite (load_table os {| ExDBCpp.Storage.dbFileName_ := dbn |} _
               (order db) Hl Htable).
    apply assign_all_elements, elements_perm.
  - exact (new_on_files os dbn waln _ db (order db) [] Hdb
             (elements_perm order db) (Forall_nil_2 _) Htable Hlog).
Qed.







(** ** The two facades, call by call *)

Lemma new_agree os dbFileName walFileName fs :
  same_state (ExDBCpp.KeyValueDB.new os dbFileName walFileName fs, fs)
             (Part000.ExDB.new os dbFileName walFileName fs, fs).
Proof.
  unfold same_state, ExDBCpp.KeyValueDB.new, Part000.ExDB.new. simpl.
  repeat split.
  unfold ExDBCpp.WAL.applyLog, Part000.WAL.applyLog,
    ExDBCpp.Storage.load, Part000.Storage.load. simpl.
  now rewrite applyLog_loop_agree, load_loop_agree.
Qed.

Lemma call_agree os order c s1 s2 :
  same_state s1 s2 ->
  (KeyValueDB_call os order c s1).1 = (ExDB_call os order c s2).1
  /\ same_state (KeyValueDB_call os order c s1).2 (ExDB_call os order c s2).2.
Proof.
  destruct s1 as [[db1 [dbn1] [waln1]] fs1].
  destruct s2 as [[db2 [dbn2] [waln2]] fs2].
  unfold same_state. simpl. intros (-> & -> & -> & ->).
  destruct c as [key value|key|key|]; simpl.
  - repeat split.
  - destruct (db2 !! key); simpl; repeat split.
  - repeat split.
  - repeat split.
Qed.

Lemma run_agree os order cs s1 s2 :
  same_state s1 s2 ->
  (KeyValueDB_run os order cs s1).1 = (ExDB_run os order cs s2).1
  /\ same_state (KeyValueDB_run os order cs s1).2 (ExDB_run os order cs s2).2.
Proof.
  revert s1 s2. induction cs as [|c cs IH]; intros s1 s2 Hs; simpl.
  - split; [reflexivity|exact Hs].
  - destruct (call_agree os order c s1 s2 Hs) as [Hr Hs'].
    destruct (KeyValueDB_call os order c s1) as [r1 s1'].
    destruct (ExDB_call os order c s2) as [r2 s2']. simpl in Hr, Hs'.
    destruct (IH s1' s2' Hs') as [Hrs Hs''].
    destruct (KeyValueDB_run os order cs s1') as [rs1 s1''].
    destruct (ExDB_run os order cs s2') as [rs2 s2'']. simpl in *.
    split; [congruence|exact Hs''].
Qed.

(** ** Calls with tokens keep a Mapping of tokens *)

Lemma tokens_only_put os key value (st : ExDBCpp.KeyValueDB.state) :
  token key = true -> token value = true ->
  tokens_only (ExDBCpp.KeyValueDB.db_ st.1) ->
  tokens_only
    (ExDBCpp.KeyValueDB.db_ (ExDBCpp.KeyValueDB.put os key value st).1).
Proof.
  destruct st as [this fs]. simpl. intros Hk Hv Hdb.
  now apply map_Forall_insert_2.
Qed.

Lemma tokens_only_remove os key (st : ExDBCpp.KeyValueDB.state) :
  tokens_only (ExDBCpp.KeyValueDB.db_ st.1) ->
  tokens_only (ExDBCpp.KeyValueDB.db_ (ExDBCpp.KeyValueDB.remove os key st).1).
Proof.
  destruct st as [this fs]. simpl. intros Hdb.
  now apply map_Forall_delete.
Qed.

(** C10. The facade [KeyValueDB] of src/exDB.cpp and the facade [ExDB] of
    src/unnamed/part_000, built on the same files and given the same
    calls, return the same values and end with the same Mapping and the
    same files. *)
Theorem implementations_agree (os : system) (order : iteration)
  dbFileName walFileName (fs : FS) (cs : list call) :
  let r1 := KeyValueDB_run os order cs
              (ExDBCpp.KeyValueDB.new os dbFileName walFileName fs, fs) in
  let r2 := ExDB_run os order cs
              (Part000.ExDB.new os dbFileName walFileName fs, fs) in
  r1.1 = r2.1
  /\ ExDBCpp.KeyValueDB.db_ r1.2.1 = Part000.ExDB.db_ r2.2.1
  /\ r1.2.2 = r2.2.2.
Proof.
  intros r1 r2.
  destruct (run_agree os order cs _ _ (new_agree os dbFileName walFileName fs))
    as [Hr (Hdb & _ & _ & Hfs)].
  split; [exact Hr|]. split; [exact Hdb|exact Hfs].
Qed.

(** ** Sample runs *)

(** The run of [main]: two [put], two [get], a [remove], a [get], then
    [mergeLogs]; a facade built afterwards on the same files finds [age]
    and not [name]. *)
Example main_scenario :
  let calls := [CallPut "name" "Alice"; CallPut "age" "30";
                CallGet "name"; CallGet "age";
                CallRemove "name"; CallGet "name"; CallMergeLogs] in
  let '(out, (this, fs)) :=
    KeyValueDB_run sample_system listed_iteration calls
      (ExDBCpp.KeyValueDB.new sample_system "db.txt" "wal.txt" ∅, ∅) in
  let fresh :=
    (ExDBCpp.KeyValueDB.new sample_system "db.txt" "wal.txt" fs, fs) in
  out = [None; None; Some "Alice"; Some "30"; None; Some "Key not found";
         None]
  /\ fs !! "db.txt" = Some ("age 30" ++ newline)
  /\ fs !! "wal.txt" = Some EmptyString
  /\ (ExDBCpp.KeyValueDB.get "age" fresh).1 = "30"
  /\ (ExDBCpp.KeyValueDB.get "name" fresh).1 = "Key not found".
Proof. vm_compute. repeat split; reflexivity. Qed.

(** Before the merge the log holds the three records of the run. *)
Example main_log :
  let calls := [CallPut "name" "Alice"; CallPut "age" "30";
                CallRemove "name"] in
  (KeyValueDB_run sample_system listed_iteration calls
     (ExDBCpp.KeyValueDB.new sample_system "db.txt" "wal.txt" ∅, ∅)).2.2
    !! "wal.txt"
  = Some (log_text [Put "name" "Alice"; Put "age" "30"; Delete "name"]).
Proof. vm_compute. reflexivity. Qed.

(** A log that is only [PUT k]: the variable [value] is still empty. *)
Example lone_truncated_put :
  ExDBCpp.WAL.applyLog sample_system
    {| ExDBCpp.WAL.walFileName_ := "wal.txt" |} ∅
    (<["wal.txt" := "PUT k"]> ∅)
  = <["k" := EmptyString]> ∅.
Proof. vm_compute. reflexivity. Qed.

(** An operation that is neither [PUT] nor [DEL] takes two tokens and
    changes nothing. *)
Example unknown_operation :
  ExDBCpp.WAL.applyLog sample_system
    {| ExDBCpp.WAL.walFileName_ := "wal.txt" |} ∅
    (<["wal.txt" := "SET a b" ++ newline ++ "PUT c d" ++ newline]> ∅)
  = ∅.
Proof. vm_compute. reflexivity. Qed.

(** Two paths of one file, and a path that names nothing. *)
Example paths_sample :
  let st := ExDBCpp.KeyValueDB.put sample_system "a" "1"
              (ExDBCpp.KeyValueDB.new sample_system "./db.txt" EmptyString ∅, ∅) in
  let st' := ExDBCpp.KeyValueDB.mergeLogs sample_system listed_iteration st in
  st.2 = ∅
  /\ file_text sample_system st'.2 "db.txt" = Some ("a 1" ++ newline)
  /\ file_text sample_system st'.2 "./db.txt" = Some ("a 1" ++ newline).
Proof. vm_compute. repeat split; reflexivity. Qed.

(** * Further properties *)

(** ** What [put] and [remove] leave in the files *)

Lemma file_holds_append os fs name file R r :
  can_read os name file ->
  file_holds os fs name (log_text R) ->
  file_holds os
    (<[file := default EmptyString (fs !! file) ++ record_line r]> fs)
    name (log_text (R ++ [r])%list).
Proof.
  intros Hl Hfs. left. rewrite (file_text_insert_eq os fs name file) by exact Hl.
  now rewrite log_text_snoc, (file_holds_default os fs name file _ Hl Hfs).
Qed.

(** X1. [put] then [get]: the key just written reads back as the value
    written, every other key reads as before, and the read changes
    nothing. *)
Theorem put_get (os : system) key value key'
  (st : ExDBCpp.KeyValueDB.state) :
  let st' := ExDBCpp.KeyValueDB.put os key value st in
  ExDBCpp.KeyValueDB.get key st' = (value, st')
  /\ (key' <> key ->
      (ExDBCpp.KeyValueDB.get key' st').1 = (ExDBCpp.KeyValueDB.get key' st).1).
Proof.
  destruct st as [this fs]. simpl. unfold ExDBCpp.KeyValueDB.get. simpl.
  rewrite lookup_insert_eq. split; [reflexivity|].
  intros Hne. rewrite lookup_insert_ne by congruence.
  now destruct (ExDBCpp.KeyValueDB.db_ this !! key').
Qed.

Lemma put_get_witness :
  let st : ExDBCpp.KeyValueDB.state :=
    ExDBCpp.KeyValueDB.put sample_system "age" "30"
      (ExDBCpp.KeyValueDB.new sample_system "db.txt" "wal.txt" ∅, ∅) in
  let st' := ExDBCpp.KeyValueDB.put sample_system "age" "31" st in
  (ExDBCpp.KeyValueDB.get "age" st').1 = "31"
  /\ (ExDBCpp.KeyValueDB.get "name" st').1 = "Key not found".
Proof.
  intros st st'.
  destruct (put_get sample_system "age" "31" "name" st) as [Hsame Hother].
  split; [exact (f_equal fst Hsame)|].
  refine (eq_trans (Hother _) _); [discriminate|reflexivity].
Defined.

(** X2. [remove] then [get]: the key removed reads as [Key not found],
    whether it had an entry or not, and every other key reads as before. *)
Theorem remove_get (os : system) key key' (st : ExDBCpp.KeyValueDB.state) :
  let st' := ExDBCpp.KeyValueDB.remove os key st in
  ExDBCpp.KeyValueDB.get key st' = ("Key not found", st')
  /\ (key' <> key ->
      (ExDBCpp.KeyValueDB.get key' st').1 = (ExDBCpp.KeyValueDB.get key' st).1).
Proof.
  destruct st as [this fs]. simpl. unfold ExDBCpp.KeyValueDB.get. simpl.
  rewrite lookup_delete_eq. split; [reflexivity|].
  intros Hne. rewrite lookup_delete_ne by congruence.
  now destruct (ExDBCpp.KeyValueDB.db_ this !! key').
Qed.

Lemma remove_get_witness :
  let st : ExDBCpp.KeyValueDB.state :=
    ExDBCpp.KeyValueDB.put sample_system "age" "30"
      (ExDBCpp.KeyValueDB.put sample_system "name" "Alice"
         (ExDBCpp.KeyValueDB.new sample_system "db.txt" "wal.txt" ∅, ∅)) in
  let st' := ExDBCpp.KeyValueDB.remove sample_system "name" st in
  (ExDBCpp.KeyValueDB.get "name" st').1 = "Key not found"
  /\ (ExDBCpp.KeyValueDB.get "age" st').1 = "30".
Proof.
  intros st st'.
  destruct (remove_get sample_system "name" "age" st) as [Hsame Hother].
  split; [exact (f_equal fst Hsame)|].
  refine (eq_trans (Hother _) _); [discriminate|reflexivity].
Defined.

(** X3. [put] sets the entry in the Mapping whatever happens to the log.
    When the path of the log names a file that may be opened for writing,
    [put] appends the line [PUT key value] to that file and touches no
    other: the file grows by the length of that line, and a log read as
    the records [R] is then read as [R] followed by [Put key value].
    When the log cannot be opened, the files are left as they were. *)
Theorem put_logs (os : system) key value (st : ExDBCpp.KeyValueDB.state) R :
  let wal := ExDBCpp.WAL.walFileName_ (ExDBCpp.KeyValueDB.wal_ st.1) in
  let st' := ExDBCpp.KeyValueDB.put os key value st in
  ExDBCpp.KeyValueDB.db_ st'.1 = <[key := value]> (ExDBCpp.KeyValueDB.db_ st.1)
  /\ (open_for_writing os wal = None -> st'.2 = st.2)
  /\ (forall walFile, can_write os wal walFile ->
      st'.2 = <[walFile := default EmptyString (st.2 !! walFile)
                           ++ "PUT " ++ key ++ " " ++ value ++ newline]> st.2
      /\ (readable os walFile = true ->
          file_holds os st.2 wal (log_text R) ->
          file_holds os st'.2 wal (log_text (R ++ [Put key value])%list))
      /\ String.length (default EmptyString (st'.2 !! walFile))
         = String.length (default EmptyString (st.2 !! walFile))
           + 6 + String.length key + String.length value).
Proof.
  destruct st as [this fs]. intros wal st'. subst wal st'.
  cbn [fst snd] in *. set (wal := ExDBCpp.WAL.walFileName_ _) in *.
  unfold ExDBCpp.KeyValueDB.put. cbn [fst snd ExDBCpp.KeyValueDB.db_].
  rewrite logWriteOperation_line. fold wal.
  split; [reflexivity|]. split; [now intros ->|].
  intros walFile Hw. rewrite (can_write_open _ _ _ Hw).
  split; [reflexivity|].
  split; [intros Hr Hfs; apply file_holds_append;
            [split; [apply Hw|exact Hr]|exact Hfs]|].
  rewrite lookup_insert_eq. simpl.
  rewrite !length_append. unfold newline. simpl. lia.
Qed.

Lemma put_logs_witness :
  let st : ExDBCpp.KeyValueDB.state :=
    ExDBCpp.KeyValueDB.remove sample_system "name"
      (ExDBCpp.KeyValueDB.new sample_system "db.txt" "wal.txt" ∅, ∅) in
  let st' := ExDBCpp.KeyValueDB.put sample_system "age" "30" st in
  file_holds sample_system st'.2 "wal.txt"
    (log_text [Delete "name"; Put "age" "30"]).
Proof.
  intros st st'.
  destruct (put_logs sample_system "age" "30" st [Delete "name"])
    as (_ & _ & Hw).
  destruct (Hw "wal.txt") as (_ & Hlog & _); [split; reflexivity|].
  apply Hlog; [reflexivity|]. left. reflexivity.
Defined.

(** ** A facade on well-formed files stays on well-formed files *)

Lemma tokens_only_replay (S : Mapping) R :
  tokens_only S -> Forall record_ok R -> tokens_only (replay S R).
Proof.
  intros HS HR. revert S HS. induction HR as [|r R Hr _ IH]; intros S HS;
    [exact HS|].
  apply IH. destruct r as [key value|key]; simpl in *.
  - now apply map_Forall_insert_2.
  - now apply map_Forall_delete.
Qed.

Lemma replay_snoc (S : Mapping) R r :
  replay S (R ++ [r])%list = apply_record (replay S R) r.
Proof. unfold replay. now rewrite foldl_app. Qed.

Lemma well_formed_new os dbFileName walFileName (fs : FS) (S : Mapping) l R :
  two_files os dbFileName walFileName ->
  tokens_only S -> l ≡ₚ map_to_list S -> Forall record_ok R ->
  file_holds os fs dbFileName (table_text l) ->
  file_holds os fs walFileName (log_text R) ->
  well_formed os (ExDBCpp.KeyValueDB.new os dbFileName walFileName fs, fs).
Proof.
  intros Hne HS Hl HR Hdb Hwal. split; [exact Hne|].
  exists S, l, R. repeat (split; [assumption|]).
  now apply (new_on_files _ _ _ _ S l R).
Qed.

Lemma well_formed_step os order c st :
  well_formed os st -> call_ok c ->
  well_formed os (KeyValueDB_call os order c st).2.
Proof.
  destruct st as [[db [dbn] [waln]] fs].
  intros [Hfiles (S & l & R & HS & Hl & HR & Hdb & Hwal & Hrep)] Hc.
  simpl in Hfiles, Hdb, Hwal, Hrep.
  pose proof Hfiles as (dbFile & walFile & [Hd Hdr] & [Hw Hwr] & Hne).
  assert (Hother : locate os dbn <> Some walFile)
    by (destruct Hd as [-> _]; congruence).
  destruct c as [key value|key|key|]; simpl in Hc.
  - split; [exact Hfiles|]. exists S, l, (R ++ [Put key value])%list.
    cbn [KeyValueDB_call snd fst ExDBCpp.KeyValueDB.put
           ExDBCpp.KeyValueDB.db_ ExDBCpp.KeyValueDB.wal_].
    rewrite logWriteOperation_line.
    cbn [ExDBCpp.WAL.walFileName_]. rewrite (can_write_open _ _ _ Hw).
    split; [exact HS|]. split; [exact Hl|].
    split; [apply Forall_app; split; [exact HR|now repeat constructor]|].
    split; [now apply file_holds_insert_ne|].
    split; [apply file_holds_append; [exact Hwr|exact Hwal]|].
    now rewrite replay_snoc, Hrep.
  - unfold KeyValueDB_call, ExDBCpp.KeyValueDB.get. simpl.
    destruct (db !! key); simpl; (split; [exact Hfiles|]); exists S, l, R;
      repeat (split; [assumption|]); exact Hrep.
  - split; [exact Hfiles|]. exists S, l, (R ++ [Delete key])%list.
    cbn [KeyValueDB_call snd fst ExDBCpp.KeyValueDB.remove
           ExDBCpp.KeyValueDB.db_ ExDBCpp.KeyValueDB.wal_].
    rewrite logDeleteOperation_line.
    cbn [ExDBCpp.WAL.walFileName_]. rewrite (can_write_open _ _ _ Hw).
    split; [exact HS|]. split; [exact Hl|].
    split; [apply Forall_app; split; [exact HR|now repeat constructor]|].
    split; [now apply file_holds_insert_ne|].
    split; [apply file_holds_append; [exact Hwr|exact Hwal]|].
    now rewrite replay_snoc, Hrep.
  - split; [exact Hfiles|]. exists db, (order db), [].
    cbn [KeyValueDB_call snd].
    rewrite (mergeLogs_files os order db dbn waln fs dbFile walFile Hd Hw).
    split; [rewrite Hrep; now apply tokens_only_replay|].
    split; [apply elements_perm|]. split; [constructor|].
    split; [apply file_holds_insert_ne; [exact Hother|];
            apply file_holds_insert_eq, Hdr|].
    split; [apply file_holds_insert_eq, Hwr|reflexivity].
Qed.

Lemma run_names os order cs st :
  ExDBCpp.KeyValueDB.storage_ (KeyValueDB_run os order cs st).2.1
    = ExDBCpp.KeyValueDB.storage_ st.1
  /\ ExDBCpp.KeyValueDB.wal_ (KeyValueDB_run os order cs st).2.1
     = ExDBCpp.KeyValueDB.wal_ st.1.
Proof.
  revert st. induction cs as [|c cs IH]; intros st; [split; reflexivity|].
  simpl. case_eq (KeyValueDB_call os order c st). intros r st1 E1.
  specialize (IH st1).
  destruct (KeyValueDB_run os order cs st1) as [rs st2]. simpl in *.
  assert (Hst1 : ExDBCpp.KeyValueDB.storage_ st1.1
                 = ExDBCpp.KeyValueDB.storage_ st.1
                 /\ ExDBCpp.KeyValueDB.wal_ st1.1
                    = ExDBCpp.KeyValueDB.wal_ st.1).
  { destruct st as [this fs]. destruct c as [key value|key|key|];
      simpl in E1; try (injection E1 as <- <-; split; reflexivity).
    unfold ExDBCpp.KeyValueDB.get in E1. simpl in E1.
    destruct (ExDBCpp.KeyValueDB.db_ this !! key);
      injection E1 as <- <-; split; reflexivity. }
  destruct IH as [-> ->]. exact Hst1.
Qed.

Lemma well_formed_run os order cs st :
  well_formed os st -> Forall call_ok cs ->
  well_formed os (KeyValueDB_run os order cs st).2.
Proof.
  intros Hst Hcs. revert st Hst. induction Hcs as [|c cs Hc _ IH];
    intros st Hst; [exact Hst|].
  simpl. pose proof (well_formed_step os order c st Hst Hc) as Hst1.
  destruct (KeyValueDB_call os order c st) as [r st1].
  specialize (IH st1 Hst1).
  now destruct (KeyValueDB_run os order cs st1) as [rs st2].
Qed.

Lemma well_formed_restart os st :
  well_formed os st ->
  ExDBCpp.KeyValueDB.db_
    (ExDBCpp.KeyValueDB.new os
       (ExDBCpp.Storage.dbFileName_ (ExDBCpp.KeyValueDB.storage_ st.1))
       (ExDBCpp.WAL.walFileName_ (ExDBCpp.KeyValueDB.wal_ st.1)) st.2)
  = ExDBCpp.KeyValueDB.db_ st.1.
Proof.
  intros [Hne (S & l & R & HS & Hl & HR & Hdb & Hwal & Hrep)].
  rewrite Hrep. now apply (new_on_files _ _ _ _ S l R).
Qed.

Lemma well_formed_tokens os st :
  well_formed os st -> tokens_only (ExDBCpp.KeyValueDB.db_ st.1).
Proof.
  intros [Hne (S & l & R & HS & Hl & HR & Hdb & Hwal & Hrep)].
  rewrite Hrep. now apply tokens_only_replay.
Qed.

(** X4. Restart recovers the live Mapping.  A facade is built on two
    paths that name two different files, both of which may be opened for
    reading and for writing, a table of tokens and a log of complete
    records; after any
    calls whose arguments are tokens, a facade built anew on the files
    as they are then has exactly the Mapping of the running one, and
    that Mapping holds tokens only. *)
Theorem restart_recovers (os : system) (order : iteration)
  dbFileName walFileName (fs : FS) (S : Mapping) l R (cs : list call) :
  two_files os dbFileName walFileName ->
  tokens_only S -> l ≡ₚ map_to_list S -> Forall record_ok R ->
  file_holds os fs dbFileName (table_text l) ->
  file_holds os fs walFileName (log_text R) ->
  Forall call_ok cs ->
  let st := (KeyValueDB_run os order cs
               (ExDBCpp.KeyValueDB.new os dbFileName walFileName fs, fs)).2 in
  ExDBCpp.KeyValueDB.db_
    (ExDBCpp.KeyValueDB.new os dbFileName walFileName st.2)
  = ExDBCpp.KeyValueDB.db_ st.1
  /\ tokens_only (ExDBCpp.KeyValueDB.db_ st.1).
Proof.
  intros Hne HS Hl HR Hdb Hwal Hcs st.
  pose proof (well_formed_new _ _ _ _ S l R Hne HS Hl HR Hdb Hwal) as Hwf.
  apply (well_formed_run os order cs) in Hwf; [|exact Hcs]. fold st in Hwf.
  destruct (run_names os order cs
              (ExDBCpp.KeyValueDB.new os dbFileName walFileName fs, fs))
    as [Hs Hw]. fold st in Hs, Hw. simpl in Hs, Hw.
  split; [|now apply (well_formed_tokens os)].
  pose proof (well_formed_restart os st Hwf) as Hnew.
  now rewrite Hs, Hw in Hnew.
Qed.

Lemma restart_recovers_witness :
  let S : Mapping := <["name" := "Alice"]> ∅ in
  let R := [Put "city" "Paris"] in
  let fs : FS :=
    <["db.txt" := table_text (map_to_list S)]>
      (<["wal.txt" := log_text R]> ∅) in
  let cs := [CallPut "age" "30"; CallRemove "name"; CallGet "age";
             CallMergeLogs; CallPut "age" "31"; CallRemove "city"] in
  let st := (KeyValueDB_run sample_system listed_iteration cs
               (ExDBCpp.KeyValueDB.new sample_system "db.txt" "wal.txt" fs,
                fs)).2 in
  ExDBCpp.KeyValueDB.db_
    (ExDBCpp.KeyValueDB.new sample_system "db.txt" "wal.txt" st.2)
  = ExDBCpp.KeyValueDB.db_ st.1
  /\ tokens_only (ExDBCpp.KeyValueDB.db_ st.1).
Proof.
  intros S R fs cs.
  apply (restart_recovers sample_system listed_iteration "db.txt" "wal.txt"
           fs S (map_to_list S) R cs).
  - exists "db.txt", "wal.txt". repeat split; discriminate.
  - by_evaluation.
  - reflexivity.
  - by_evaluation.
  - left. reflexivity.
  - left. reflexivity.
  - by_evaluation.
Defined.

(** X5. Merge convergence where the data model holds.  At every state a
    facade reaches from two different files that may be read and
    written, a table of tokens
    and a log of complete records, by calls whose arguments are tokens,
    [mergeLogs] leaves a table file that loads to the Mapping, an empty
    log, and files on which a new facade has that Mapping. *)
Theorem merge_converges_after_calls (os : system) (order : iteration)
  dbFileName walFileName (fs : FS) (S : Mapping) l R (cs : list call) :
  two_files os dbFileName walFileName ->
  tokens_only S -> l ≡ₚ map_to_list S -> Forall record_ok R ->
  file_holds os fs dbFileName (table_text l) ->
  file_holds os fs walFileName (log_text R) ->
  Forall call_ok cs ->
  merge_converges os order
    (KeyValueDB_run os order cs
       (ExDBCpp.KeyValueDB.new os dbFileName walFileName fs, fs)).2.
Proof.
  intros Hne HS Hl HR Hdb Hwal Hcs.
  pose proof (well_formed_new _ _ _ _ S l R Hne HS Hl HR Hdb Hwal) as Hwf.
  apply (well_formed_run os order cs) in Hwf; [|exact Hcs].
  apply tokens_merge_converges; [exact (proj1 Hwf)|].
  now apply (well_formed_tokens os).
Qed.

Lemma merge_converges_after_calls_witness :
  let cs := [CallPut "name" "Alice"; CallPut "age" "30";
             CallRemove "name"; CallMergeLogs; CallPut "city" "Paris"] in
  merge_converges sample_system listed_iteration
    (KeyValueDB_run sample_system listed_iteration cs
       (ExDBCpp.KeyValueDB.new sample_system "db.txt" "wal.txt" ∅, ∅)).2.
Proof.
  intros cs.
  apply (merge_converges_after_calls sample_system listed_iteration
           "db.txt" "wal.txt" ∅ ∅ [] [] cs).
  - exists "db.txt", "wal.txt". repeat split; discriminate.
  - by_evaluation.
  - reflexivity.
  - by_evaluation.
  - right. split; reflexivity.
  - right. split; reflexivity.
  - by_evaluation.
Defined.

(** ** What the extraction hands over *)

Lemma getword_nows s : nows (getword s).1 = true.
Proof.
  induction s as [|c s IH]; [reflexivity|]. simpl.
  destruct (isspace c) eqn : Hc; [reflexivity|].
  destruct (getword s) as [w r]. simpl in *. now rewrite Hc.
Qed.

Lemma extract_ok f var f' w :
  extract f var = (f', w) -> failbit f' = false ->
  token w = true /\ failbit f = false.
Proof.
  unfold extract. destruct (failbit f) eqn : Hf.
  - intros [= <- <-] Hf'. congruence.
  - destruct (skipws (buf f)) as [|c b] eqn : Hb.
    + intros [= <- <-]. discriminate.
    + pose proof (skipws_head _ _ _ Hb) as Hc.
      pose proof (getword_nows (String c b)) as Hw.
      destruct (getword (String c b)) as [w1 r] eqn : Hg.
      intros [= <- <-] _. split; [|reflexivity].
      simpl in Hg. rewrite Hc in Hg. destruct (getword b) as [w2 r2].
      injection Hg as <- <-. simpl in *. exact Hw.
Qed.

Lemma extract_kept f var f' w :
  extract f var = (f', w) -> failbit f' = true -> w = var.
Proof.
  unfold extract. destruct (failbit f).
  - now intros [= <- <-].
  - destruct (skipws (buf f)) as [|c b].
    + now intros [= <- <-].
    + destruct (getword (String c b)) as [w1 r]. intros [= <- <-].
      discriminate.
Qed.

Lemma load_loop_tokens dbFile key value (db : Mapping) :
  tokens_only db ->
  tokens_only (ExDBCpp.Storage.load_loop dbFile key value db).
Proof.
  funelim (ExDBCpp.Storage.load_loop dbFile key value db); intros Hdb.
  - exact Hdb.
  - match goal with IH : tokens_only _ -> _ |- _ => apply IH end.
    match goal with
    | E1 : extract _ _ = (dbFile1, key1),
      E2 : extract dbFile1 _ = (dbFile2, value1),
      E3 : failbit dbFile2 = false |- _ =>
        destruct (extract_ok _ _ _ _ E2 E3) as [Hv Hf1];
        destruct (extract_ok _ _ _ _ E1 Hf1) as [Hk _]
    end.
    now apply map_Forall_insert_2.
Qed.

Lemma applyLog_loop_keys_tokens walFile operation key value (db : Mapping) :
  token value = true \/ value = EmptyString ->
  keys_tokens db ->
  keys_tokens (ExDBCpp.WAL.applyLog_loop walFile operation key value db).
Proof.
  funelim (ExDBCpp.WAL.applyLog_loop walFile operation key value db);
    intros Hvalue Hdb.
  - exact Hdb.
  - match goal with IH : _ -> keys_tokens _ -> _ |- _ => apply IH end.
    + destruct (failbit walFile3) eqn : Hf3.
      * match goal with
        | E4 : extract walFile2 value = (walFile3, value1) |- _ =>
            now rewrite (extract_kept _ _ _ _ E4 Hf3)
        end.
      * match goal with
        | E4 : extract walFile2 value = (walFile3, value1) |- _ =>
            left; exact (proj1 (extract_ok _ _ _ _ E4 Hf3))
        end.
    + apply map_Forall_insert_2; [|exact Hdb]. split.
      * match goal with
        | E2 : extract walFile1 _ = (walFile2, key1),
          E3 : failbit walFile2 = false |- _ =>
            exact (proj1 (extract_ok _ _ _ _ E2 E3))
        end.
      * destruct (failbit walFile3) eqn : Hf3.
        -- match goal with
           | E4 : extract walFile2 value = (walFile3, value1) |- _ =>
               now rewrite (extract_kept _ _ _ _ E4 Hf3)
           end.
        -- match goal with
           | E4 : extract walFile2 value = (walFile3, value1) |- _ =>
               left; exact (proj1 (extract_ok _ _ _ _ E4 Hf3))
           end.
  - match goal with IH : _ -> keys_tokens _ -> _ |- _ => apply IH end;
      [exact Hvalue|now apply map_Forall_delete].
  - match goal with IH : _ -> keys_tokens _ -> _ |- _ => apply IH end;
      assumption.
Qed.

Lemma tokens_only_keys_tokens (m : Mapping) : tokens_only m -> keys_tokens m.
Proof.
  intros Hm. apply (map_Forall_impl _ _ _ Hm).
  intros k v [Hk Hv]. split; [exact Hk|now left].
Qed.

(** X6. Whatever the table file contains, and whether or not it can be
    opened, [Storage::load] returns a Mapping in which every key and
    every value is a token: non-empty and free of white space. *)
Theorem load_gives_tokens (os : system) this (fs : FS) :
  tokens_only (ExDBCpp.Storage.load os this fs).
Proof.
  unfold ExDBCpp.Storage.load.
  destruct (ifstream_open os fs (ExDBCpp.Storage.dbFileName_ this))
    as [text failed].
  apply load_loop_tokens. intros k v Hkv. now rewrite lookup_empty in Hkv.
Qed.

(** X7. Whatever the two files contain, the facade built on them has a
    Mapping in which every key is a token and every value is a token or
    the empty string. *)
Theorem new_gives_keys_tokens (os : system) dbFileName walFileName (fs : FS) :
  keys_tokens
    (ExDBCpp.KeyValueDB.db_
       (ExDBCpp.KeyValueDB.new os dbFileName walFileName fs)).
Proof.
  unfold ExDBCpp.KeyValueDB.new, ExDBCpp.WAL.applyLog. simpl.
  apply applyLog_loop_keys_tokens; [now right|].
  apply tokens_only_keys_tokens. unfold ExDBCpp.Storage.load.
  apply load_loop_tokens, map_Forall_empty.
Qed.

(** ** The loops see the words of the file and nothing else *)

Lemma words_skipws s : words (skipws s) = words s.
Proof.
  induction s as [|c s IH]; [reflexivity|]. simpl.
  destruct (isspace c) eqn : Hc; [exact IH|].
  simpl. now rewrite Hc.
Qed.

Lemma words_cons c s :
  words (String c s)
  = if isspace c then words s
    else if starts_word s then
      match words s with
      | w :: ws => String c w :: ws
      | [] => [String c EmptyString]
      end
    else String c EmptyString :: words s.
Proof. reflexivity. Qed.

Lemma getword_cons c s :
  getword (String c s)
  = if isspace c then (EmptyString, String c s)
    else let '(w, r) := getword s in (String c w, r).
Proof. reflexivity. Qed.

Lemma getword_words b : forall c,
  isspace c = false ->
  words (String c b) = (getword (String c b)).1 :: words (getword (String c b)).2.
Proof.
  induction b as [|c' b IH]; intros c Hc.
  - rewrite words_cons, getword_cons, Hc. reflexivity.
  - rewrite (words_cons c), (getword_cons c), Hc.
    destruct (isspace c') eqn : Hc'.
    + rewrite (getword_cons c'), Hc'. simpl. rewrite Hc'. reflexivity.
    + specialize (IH c' Hc'). simpl starts_word. rewrite Hc'. simpl negb.
      cbn iota. rewrite IH.
      destruct (getword (String c' b)) as [w r]. reflexivity.
Qed.

Lemma extract_words_nil s var :
  words s = [] ->
  extract {| buf := s; failbit := false |} var
  = ({| buf := EmptyString; failbit := true |}, var).
Proof.
  intros Hw. unfold extract. cbn [failbit buf].
  rewrite <- words_skipws in Hw.
  destruct (skipws s) as [|c b] eqn : Hb; [reflexivity|].
  rewrite (getword_words b c (skipws_head _ _ _ Hb)) in Hw. discriminate.
Qed.

Lemma extract_words_cons s var w ws :
  words s = w :: ws ->
  exists r, extract {| buf := s; failbit := false |} var
            = ({| buf := r; failbit := false |}, w)
            /\ words r = ws.
Proof.
  intros Hw. unfold extract. cbn [failbit buf].
  rewrite <- words_skipws in Hw.
  destruct (skipws s) as [|c b] eqn : Hb; [discriminate|].
  rewrite (getword_words b c (skipws_head _ _ _ Hb)) in Hw.
  destruct (getword (String c b)) as [w1 r]. cbn [fst snd] in Hw.
  injection Hw as <- <-. exists r. split; reflexivity.
Qed.

Lemma load_loop_words n : forall ws s key value db,
  length ws <= n -> words s = ws ->
  ExDBCpp.Storage.load_loop {| buf := s; failbit := false |} key value db
  = assign_all db (pairs_of ws).
Proof.
  induction n as [|n IH]; intros ws s key value db Hn Hw;
    rewrite ExDBCpp_load_loop_unfold.
  - destruct ws; [|simpl in Hn; lia].
    now rewrite (extract_words_nil s key Hw).
  - destruct ws as [|k [|v rest]].
    + now rewrite (extract_words_nil s key Hw).
    + destruct (extract_words_cons s key k [] Hw) as (r & -> & Hr).
      now rewrite (extract_words_nil r value Hr).
    + destruct (extract_words_cons s key k (v :: rest) Hw) as (r & -> & Hr).
      destruct (extract_words_cons r value v rest Hr) as (r2 & -> & Hr2).
      simpl. apply IH; [simpl in Hn; lia|exact Hr2].
Qed.

Lemma applyLog_loop_words n : forall ws s operation key value db,
  length ws <= n -> words s = ws ->
  ExDBCpp.WAL.applyLog_loop {| buf := s; failbit := false |}
    operation key value db
  = replay_words ws value db.
Proof.
  induction n as [|n IH]; intros ws s operation key value db Hn Hw;
    rewrite ExDBCpp_applyLog_loop_unfold.
  - destruct ws; [|simpl in Hn; lia].
    now rewrite (extract_words_nil s operation Hw).
  - destruct ws as [|op [|k rest]].
    + now rewrite (extract_words_nil s operation Hw).
    + destruct (extract_words_cons s operation op [] Hw) as (r & -> & Hr).
      now rewrite (extract_words_nil r key Hr).
    + destruct (extract_words_cons s operation op (k :: rest) Hw)
        as (r & -> & Hr).
      destruct (extract_words_cons r key k rest Hr) as (r2 & -> & Hr2).
      cbn [failbit replay_words].
      destruct (String.eqb op "PUT").
      * destruct rest as [|v rest'].
        -- rewrite (extract_words_nil r2 value Hr2).
           apply applyLog_loop_failed.
        -- destruct (extract_words_cons r2 value v rest' Hr2)
             as (r3 & -> & Hr3).
           apply IH; [simpl in Hn; lia|exact Hr3].
      * destruct (String.eqb op "DEL");
          (apply IH; [simpl in Hn; lia|exact Hr2]).
Qed.

(** X8. [Storage::load] sees only the words of the file: whatever the
    file contains, the Mapping loaded is the one obtained by taking the
    words two by two as key and value, first to last, a last word alone
    being left out; a file that cannot be opened loads as the empty
    Mapping.  Line breaks and the amount of white space play no part. *)
Theorem load_reads_words (os : system) this (fs : FS) :
  ExDBCpp.Storage.load os this fs
  = match file_text os fs (ExDBCpp.Storage.dbFileName_ this) with
    | Some text => assign_all ∅ (pairs_of (words text))
    | None => ∅
    end.
Proof.
  destruct (file_text os fs (ExDBCpp.Storage.dbFileName_ this))
    as [text|] eqn : Hfs.
  - rewrite (load_text os this _ text Hfs).
    now apply (load_loop_words (length (words text))).
  - now apply load_missing.
Qed.

(** X9. [WAL::applyLog] sees only the words of the log: whatever the file
    contains, the result is the one of reading the words as an operation
    and a key, with a value after [PUT]; a word pair whose operation is
    neither [PUT] nor [DEL] is passed over, and a [PUT] whose value is
    missing takes the value of the [PUT] before it; a log that cannot be
    opened changes nothing. *)
Theorem applyLog_reads_words (os : system) this (fs : FS) (db : Mapping) :
  ExDBCpp.WAL.applyLog os this db fs
  = match file_text os fs (ExDBCpp.WAL.walFileName_ this) with
    | Some text => replay_words (words text) EmptyString db
    | None => db
    end.
Proof.
  destruct (file_text os fs (ExDBCpp.WAL.walFileName_ this))
    as [text|] eqn : Hfs.
  - rewrite (applyLog_text os this _ text db Hfs).
    now apply (applyLog_loop_words (length (words text))).
  - now apply applyLog_missing.
Qed.

(** The words of a text, on an example with tabs and blank lines. *)
Example words_sample :
  words ("  PUT" ++ String "009"%char "a" ++ newline ++ newline ++ "b  ")
  = ["PUT"; "a"; "b"].
Proof. reflexivity. Qed.

(** ** Edge cases of the log and of the file names *)

(** X10. Nothing to replay: on a log file that is missing or cannot be
    opened, or that is empty or made of white space only,
    [WAL::applyLog] leaves the Mapping as it is. *)
Theorem applyLog_nothing (os : system) this (db : Mapping) (fs : FS) ws :
  allws ws = true ->
  (file_text os fs (ExDBCpp.WAL.walFileName_ this) = None ->
   ExDBCpp.WAL.applyLog os this db fs = db)
  /\ (file_text os fs (ExDBCpp.WAL.walFileName_ this) = Some ws ->
      ExDBCpp.WAL.applyLog os this db fs = db).
Proof.
  intros Hws. split.
  - apply applyLog_missing.
  - intros Hfs. rewrite (applyLog_text os this _ ws db Hfs).
    now apply applyLog_loop_end.
Qed.

Lemma applyLog_nothing_witness :
  let this := {| ExDBCpp.WAL.walFileName_ := "wal.txt" |} in
  let db : Mapping := <["age" := "30"]> ∅ in
  ExDBCpp.WAL.applyLog sample_system this db ∅ = db
  /\ ExDBCpp.WAL.applyLog sample_system this db
       (<["wal.txt" := newline ++ "  "]> ∅) = db.
Proof.
  intros this db. split.
  - apply (proj1 (applyLog_nothing sample_system this db ∅ EmptyString
                    eq_refl)). reflexivity.
  - apply (proj2 (applyLog_nothing sample_system this db
                    (<["wal.txt" := newline ++ "  "]> ∅) (newline ++ "  ")
                    eq_refl)). reflexivity.
Defined.

(** X11. [mergeLogs] twice is [mergeLogs] once: the second call leaves
    the Mapping and every file as the first one left them. *)
Theorem mergeLogs_idempotent (os : system) (order : iteration)
  (st : ExDBCpp.KeyValueDB.state) :
  ExDBCpp.KeyValueDB.mergeLogs os order
    (ExDBCpp.KeyValueDB.mergeLogs os order st)
  = ExDBCpp.KeyValueDB.mergeLogs os order st.
Proof.
  destruct st as [[db [dbn] [waln]] fs].
  unfold ExDBCpp.KeyValueDB.mergeLogs. simpl.
  rewrite !save_text, !clearLog_text. simpl. f_equal.
  destruct (open_for_writing os dbn) as [dbFile|],
    (open_for_writing os waln) as [walFile|]; try reflexivity.
  - destruct (decide (dbFile = walFile)) as [->|Hne].
    + now rewrite !insert_insert_eq.
    + rewrite (insert_insert_ne _ dbFile walFile) by exact Hne.
      now rewrite !insert_insert_eq.
  - now rewrite insert_insert_eq.
  - now rewrite insert_insert_eq.
Qed.

(** X12. One file under both paths: when the path of the table and the
    path of the log name the same file, which may be opened for writing
    and for reading,
    [mergeLogs] leaves that file empty, so the table loads as the empty
    Mapping and a facade built anew has nothing, whatever the Mapping
    held. *)
Theorem mergeLogs_same_file (os : system) (order : iteration)
  (st : ExDBCpp.KeyValueDB.state) file :
  let dbFileName :=
    ExDBCpp.Storage.dbFileName_ (ExDBCpp.KeyValueDB.storage_ st.1) in
  let walFileName :=
    ExDBCpp.WAL.walFileName_ (ExDBCpp.KeyValueDB.wal_ st.1) in
  can_write os dbFileName file -> can_write os walFileName file ->
  readable os file = true ->
  let st' := ExDBCpp.KeyValueDB.mergeLogs os order st in
  st'.2 !! file = Some EmptyString
  /\ ExDBCpp.Storage.load os (ExDBCpp.KeyValueDB.storage_ st.1) st'.2 = ∅
  /\ ExDBCpp.KeyValueDB.db_
       (ExDBCpp.KeyValueDB.new os dbFileName walFileName st'.2) = ∅.
Proof.
  destruct st as [[db [dbn] [waln]] fs].
  cbn [fst snd ExDBCpp.KeyValueDB.storage_ ExDBCpp.KeyValueDB.wal_
         ExDBCpp.Storage.dbFileName_ ExDBCpp.WAL.walFileName_].
  intros Hd Hw Hr.
  assert (Hdr : can_read os dbn file) by (split; [apply Hd|exact Hr]).
  assert (Hwr : can_read os waln file) by (split; [apply Hw|exact Hr]).
  rewrite (mergeLogs_files os order db dbn waln fs file file Hd Hw).
  rewrite insert_insert_eq.
  assert (Hload : ExDBCpp.Storage.load os
                    {| ExDBCpp.Storage.dbFileName_ := dbn |}
                    (<[file := EmptyString]> fs) = ∅).
  { rewrite (load_text os _ _ EmptyString);
      [now apply load_loop_end|apply file_text_insert_eq, Hdr]. }
  split; [apply lookup_insert_eq|]. split; [exact Hload|].
  unfold ExDBCpp.KeyValueDB.new. simpl. rewrite Hload.
  rewrite (applyLog_text os _ _ EmptyString);
    [now apply applyLog_loop_end|apply file_text_insert_eq, Hwr].
Qed.

Lemma mergeLogs_same_file_witness :
  let st : ExDBCpp.KeyValueDB.state :=
    ExDBCpp.KeyValueDB.put sample_system "age" "30"
      (ExDBCpp.KeyValueDB.new sample_system "kv.txt" "./kv.txt" ∅, ∅) in
  let st' := ExDBCpp.KeyValueDB.mergeLogs sample_system listed_iteration st in
  st'.2 !! "kv.txt" = Some EmptyString
  /\ ExDBCpp.Storage.load sample_system
       {| ExDBCpp.Storage.dbFileName_ := "kv.txt" |} st'.2 = ∅
  /\ ExDBCpp.KeyValueDB.db_
       (ExDBCpp.KeyValueDB.new sample_system "kv.txt" "./kv.txt" st'.2) = ∅.
Proof.
  intros st.
  apply (mergeLogs_same_file sample_system listed_iteration st "kv.txt");
    [split; reflexivity|split; reflexivity|reflexivity].
Defined.

(** X13. Logs compose: replaying a log made of the lines of the records
    [R1] followed by the lines of the records [R2] gives what replaying
    a log of [R2] gives on the result of replaying a log of [R1]. *)
Theorem applyLog_concatenation (os : system) this (db : Mapping)
  (fs1 fs2 fs : FS) R1 R2 :
  Forall record_ok R1 -> Forall record_ok R2 ->
  let wal := ExDBCpp.WAL.walFileName_ this in
  file_holds os fs1 wal (log_text R1) ->
  file_holds os fs2 wal (log_text R2) ->
  file_holds os fs wal (log_text R1 ++ log_text R2) ->
  ExDBCpp.WAL.applyLog os this db fs
  = ExDBCpp.WAL.applyLog os this (ExDBCpp.WAL.applyLog os this db fs1) fs2.
Proof.
  intros HR1 HR2 wal H1 H2 H12. rewrite <- log_text_app in H12.
  rewrite (applyLog_log os this fs (R1 ++ R2)%list db),
    (applyLog_log os this fs1 R1 db), (applyLog_log os this fs2 R2);
    try assumption.
  - unfold replay. apply foldl_app.
  - now apply Forall_app.
Qed.

Lemma applyLog_concatenation_witness :
  let this := {| ExDBCpp.WAL.walFileName_ := "wal.txt" |} in
  let R1 := [Put "name" "Alice"; Put "age" "30"] in
  let R2 := [Delete "name"; Put "age" "31"] in
  ExDBCpp.WAL.applyLog sample_system this ∅
    (<["wal.txt" := log_text R1 ++ log_text R2]> ∅)
  = ExDBCpp.WAL.applyLog sample_system this
      (ExDBCpp.WAL.applyLog sample_system this ∅
         (<["wal.txt" := log_text R1]> ∅))
      (<["wal.txt" := log_text R2]> ∅).
Proof.
  intros this R1 R2.
  apply (applyLog_concatenation sample_system this ∅ _ _ _ R1 R2).
  - by_evaluation.
  - by_evaluation.
  - left. reflexivity.
  - left. reflexivity.
  - left. reflexivity.
Defined.

(** ** The run of [main] *)

(** X14. Whatever files exist when it starts, [main] prints the three
    lines [name: Alice], [age: 30] and [name after deletion: Key not
    found], and the [main] of src/unnamed/part_000 prints the same and
    leaves the same files.  When [db.txt] and [wal.txt] are two
    different files that may be opened for reading and for writing,
    [main] leaves the
    log empty and a table in which [age] is [30] and [name] has no
    entry. *)
Theorem main_output (os : system) (order : iteration) (fs : FS) :
  let out := ExDBCpp.main os order fs in
  out.1 = "name: Alice" ++ newline ++ "age: 30" ++ newline
          ++ "name after deletion: Key not found" ++ newline
  /\ Part000.main os order fs = out
  /\ (two_files os "db.txt" "wal.txt" ->
      file_text os out.2 "wal.txt" = Some EmptyString
      /\ exists db : Mapping,
           db !! "age" = Some "30" /\ db !! "name" = None
           /\ file_text os out.2 "db.txt" = Some (table_text (order db))).
Proof.
  assert (Hnew : Part000.ExDB.db_ (Part000.ExDB.new os "db.txt" "wal.txt" fs)
                 = ExDBCpp.KeyValueDB.db_
                     (ExDBCpp.KeyValueDB.new os "db.txt" "wal.txt" fs)).
  { symmetry. exact (proj1 (new_agree os "db.txt" "wal.txt" fs)). }
  unfold ExDBCpp.main, Part000.main.
  change (Part000.ExDB.new os "db.txt" "wal.txt" fs)
    with {| Part000.ExDB.db_ :=
              Part000.ExDB.db_ (Part000.ExDB.new os "db.txt" "wal.txt" fs);
            Part000.ExDB.storage_ := {| Part000.Storage.dbFileName_ := "db.txt" |};
            Part000.ExDB.wal_ := {| Part000.WAL.walFileName_ := "wal.txt" |} |}.
  change (ExDBCpp.KeyValueDB.new os "db.txt" "wal.txt" fs)
    with {| ExDBCpp.KeyValueDB.db_ :=
              ExDBCpp.KeyValueDB.db_
                (ExDBCpp.KeyValueDB.new os "db.txt" "wal.txt" fs);
            ExDBCpp.KeyValueDB.storage_ :=
              {| ExDBCpp.Storage.dbFileName_ := "db.txt" |};
            ExDBCpp.KeyValueDB.wal_ :=
              {| ExDBCpp.WAL.walFileName_ := "wal.txt" |} |}.
  rewrite Hnew. clear Hnew.
  generalize (ExDBCpp.KeyValueDB.db_
                (ExDBCpp.KeyValueDB.new os "db.txt" "wal.txt" fs)).
  intros db0.
  unfold ExDBCpp.KeyValueDB.get, ExDBCpp.KeyValueDB.put,
    ExDBCpp.KeyValueDB.remove, ExDBCpp.KeyValueDB.mergeLogs,
    Part000.ExDB.get, Part000.ExDB.put, Part000.ExDB.remove,
    Part000.ExDB.mergeLogs.
  repeat first
    [ progress cbn [fst snd ExDBCpp.KeyValueDB.db_
                      ExDBCpp.KeyValueDB.storage_ ExDBCpp.KeyValueDB.wal_
                      Part000.ExDB.db_ Part000.ExDB.storage_
                      Part000.ExDB.wal_]
    | rewrite lookup_insert_eq
    | rewrite lookup_delete_eq
    | rewrite (lookup_insert_ne (<["name" := "Alice"]> db0) "age" "name")
        by discriminate ].
  split; [reflexivity|]. split; [reflexivity|].
  intros (dbFile & walFile & [Hd Hdr] & [Hw Hwr] & Hne).
  rewrite save_text, clearLog_text.
  cbn [ExDBCpp.Storage.dbFileName_ ExDBCpp.WAL.walFileName_].
  rewrite (can_write_open _ _ _ Hd), (can_write_open _ _ _ Hw).
  split; [apply file_text_insert_eq, Hwr|].
  exists (delete "name" (<["age" := "30"]> (<["name" := "Alice"]> db0))).
  split; [rewrite lookup_delete_ne by discriminate; apply lookup_insert_eq|].
  split; [apply lookup_delete_eq|].
  rewrite file_text_insert_ne by (destruct Hd as [-> _]; congruence).
  apply file_text_insert_eq, Hdr.
Qed.

Lemma main_output_witness :
  file_text sample_system (ExDBCpp.main sample_system listed_iteration ∅).2
    "wal.txt" = Some EmptyString.
Proof.
  destruct (main_output sample_system listed_iteration ∅) as (_ & _ & H).
  apply H. exists "db.txt", "wal.txt". repeat split; discriminate.
Defined.

(** ** Which files a call writes *)

(** X15. Only [mergeLogs] writes anything but the log: any other call
    leaves every file but the one the log path names as it was.  When
    that file may be opened for writing, the log the call leaves starts
    with the content the log had; what is added is empty for [get] and
    for no other call. *)
Theorem calls_extend_log (os : system) (order : iteration) (c : call)
  (st : ExDBCpp.KeyValueDB.state) :
  c <> CallMergeLogs ->
  let wal := ExDBCpp.WAL.walFileName_ (ExDBCpp.KeyValueDB.wal_ st.1) in
  let st' := (KeyValueDB_call os order c st).2 in
  (forall file, locate os wal <> Some file -> st'.2 !! file = st.2 !! file)
  /\ (forall walFile, can_write os wal walFile ->
      exists added,
        default EmptyString (st'.2 !! walFile)
        = default EmptyString (st.2 !! walFile) ++ added
        /\ (added = EmptyString <-> exists key, c = CallGet key)).
Proof.
  destruct st as [this fs]. intros Hc wal st'. subst wal st'.
  cbn [fst snd] in *. set (wal := ExDBCpp.WAL.walFileName_ _) in *.
  destruct c as [key value|key|key|]; [| | |congruence].
  - cbn [KeyValueDB_call snd ExDBCpp.KeyValueDB.put].
    rewrite logWriteOperation_line. fold wal. split.
    + intros file Hfile.
      destruct (open_for_writing os wal) as [walFile|] eqn : Ho;
        [|reflexivity].
      apply open_for_writing_locate in Ho.
      apply lookup_insert_ne. congruence.
    + intros walFile Hw. rewrite (can_write_open _ _ _ Hw).
      exists (record_line (Put key value)). rewrite lookup_insert_eq.
      split; [reflexivity|]. split; [discriminate|].
      intros [key' Hk]. discriminate Hk.
  - unfold KeyValueDB_call, ExDBCpp.KeyValueDB.get. cbn [fst snd].
    destruct (ExDBCpp.KeyValueDB.db_ this !! key); cbn [fst snd];
      (split; [reflexivity|]); intros walFile Hw; exists EmptyString;
      (split; [now rewrite append_empty_r|]);
      (split; [intros _; now exists key|reflexivity]).
  - cbn [KeyValueDB_call snd ExDBCpp.KeyValueDB.remove].
    rewrite logDeleteOperation_line. fold wal. split.
    + intros file Hfile.
      destruct (open_for_writing os wal) as [walFile|] eqn : Ho;
        [|reflexivity].
      apply open_for_writing_locate in Ho.
      apply lookup_insert_ne. congruence.
    + intros walFile Hw. rewrite (can_write_open _ _ _ Hw).
      exists (record_line (Delete key)). rewrite lookup_insert_eq.
      split; [reflexivity|]. split; [discriminate|].
      intros [key' Hk]. discriminate Hk.
Qed.

Lemma calls_extend_log_witness :
  let st : ExDBCpp.KeyValueDB.state :=
    ExDBCpp.KeyValueDB.mergeLogs sample_system listed_iteration
      (ExDBCpp.KeyValueDB.put sample_system "age" "30"
         (ExDBCpp.KeyValueDB.new sample_system "db.txt" "wal.txt" ∅, ∅)) in
  let st' :=
    (KeyValueDB_call sample_system listed_iteration (CallRemove "age") st).2 in
  st'.2 !! "db.txt" = Some ("age 30" ++ newline).
Proof.
  intros st st'.
  destruct (calls_extend_log sample_system listed_iteration
              (CallRemove "age") st) as [Hother _]; [discriminate|].
  refine (eq_trans (Hother "db.txt" _) _); [discriminate|reflexivity].
Defined.

(** ** The facade of src/unnamed/part_000 *)

(** X16. Restart recovers the live Mapping, for the facade [ExDB] of
    src/unnamed/part_000: built on two paths that name two different
    files, both of which may be opened for reading and for writing, a
    table of tokens
    and a log of complete records, and given calls whose arguments are
    tokens, it leaves files on which an [ExDB] built anew has exactly
    its Mapping. *)
Theorem ExDB_restart_recovers (os : system) (order : iteration)
  dbFileName walFileName (fs : FS) (S : Mapping) l R (cs : list call) :
  two_files os dbFileName walFileName ->
  tokens_only S -> l ≡ₚ map_to_list S -> Forall record_ok R ->
  file_holds os fs dbFileName (table_text l) ->
  file_holds os fs walFileName (log_text R) ->
  Forall call_ok cs ->
  let st := (ExDB_run os order cs
               (Part000.ExDB.new os dbFileName walFileName fs, fs)).2 in
  Part000.ExDB.db_ (Part000.ExDB.new os dbFileName walFileName st.2)
  = Part000.ExDB.db_ st.1.
Proof.
  intros Hne HS Hl HR Hdb Hwal Hcs st.
  pose proof (well_formed_new _ _ _ _ S l R Hne HS Hl HR Hdb Hwal) as Hwf.
  apply (well_formed_run os order cs) in Hwf; [|exact Hcs].
  destruct (run_names os order cs
              (ExDBCpp.KeyValueDB.new os dbFileName walFileName fs, fs))
    as [Hs Hw]. simpl in Hs, Hw.
  pose proof (well_formed_restart _ _ Hwf) as Hnew.
  rewrite Hs, Hw in Hnew. simpl in Hnew.
  destruct (run_agree os order cs _ _ (new_agree os dbFileName walFileName fs))
    as [_ (Hdb_ & _ & _ & Hfs)]. fold st in Hdb_, Hfs.
  rewrite <- Hdb_, <- Hfs, <- Hnew.
  symmetry. exact (proj1 (new_agree os dbFileName walFileName _)).
Qed.

Lemma ExDB_restart_recovers_witness :
  let cs := [CallPut "name" "Alice"; CallPut "age" "30";
             CallRemove "name"; CallMergeLogs; CallPut "city" "Paris"] in
  let st := (ExDB_run sample_system listed_iteration cs
               (Part000.ExDB.new sample_system "db.txt" "wal.txt" ∅, ∅)).2 in
  Part000.ExDB.db_ (Part000.ExDB.new sample_system "db.txt" "wal.txt" st.2)
  = Part000.ExDB.db_ st.1.
Proof.
  intros cs.
  apply (ExDB_restart_recovers sample_system listed_iteration
           "db.txt" "wal.txt" ∅ ∅ [] [] cs).
  - exists "db.txt", "wal.txt". repeat split; discriminate.
  - by_evaluation.
  - reflexivity.
  - by_evaluation.
  - right. split; reflexivity.
  - right. split; reflexivity.
  - by_evaluation.
Defined.
